(** * SecureDoc-AI: layout reconciliation, PII geometry mapping and redaction

    A shallow embedding of the geometric core of the SecureDoc-AI services

      - [app/services/redact.py]   (RedactionService)
      - [app/services/pii.py]      (PIIDetectionService, the two mapping helpers)
      - [app/services/layout.py]   (LayoutAnalysisService, tables and text blocks)

    followed by the properties of that code.  Python objects are modelled as
    the code uses them: [str] values that are sliced or searched are lists of
    characters, labels are strings, [int] is [Z], a [dict] used as a record is a
    Rocq record whose optional keys are [option] fields, a [dict] used as a map
    is a [gmap], a raised exception is [None] (or a constructor of [exn]) in
    the result, and the image files touched by the redaction engine live in an
    explicit [world].  Floating point arithmetic is binary64, as in CPython,
    through the kernel's primitive floats. *)

From Stdlib Require Import ZArith Ascii String PrimFloat Uint63 Lia.
From stdpp Require Import base option list list_numbers sorting gmap strings.

Local Open Scope Z_scope.

(* ===================================================================== *)
(** * Part I: the code                                                   *)
(* ===================================================================== *)

(** ** Python primitives *)

(** A Python [str] that is indexed, sliced or searched. *)
Abbreviation str := (list ascii).

Definition lit (s : string) : str := list_ascii_of_string s.

(** The values found under the keys [start] and [end] of an entity: the
    detectors put integers there, a caller may put [None] or some text. *)
Inductive pyval :=
  | PyNone
  | PyInt (z : Z)
  | PyStr (s : string).

#[global] Instance pyval_eq_dec : EqDecision pyval.
Proof. solve_decision. Defined.

Definition len {A} (l : list A) : Z := Z.of_nat (length l).

(** Normalisation of one slice bound [k] against a sequence of length [n]:
    a negative bound counts from the end, the result is clamped to [0..n]. *)
Definition slice_index (n k : Z) : nat :=
  Z.to_nat (if k <? 0 then Z.max (k + n) 0 else Z.min k n).

(** [s[:k]] and [s[k:]]. *)
Definition slice_to {A} (s : list A) (k : Z) : list A :=
  take (slice_index (len s) k) s.

Definition slice_from {A} (s : list A) (k : Z) : list A :=
  drop (slice_index (len s) k) s.

(** [s[a:b]] *)
Definition slice {A} (s : list A) (a b : Z) : list A :=
  take (slice_index (len s) b - slice_index (len s) a)%nat (slice_from s a).

(** A slice bound must be an integer ([None] never reaches the slices of this
    code, a [str] bound raises [TypeError]). *)
Definition as_index (v : pyval) : option Z :=
  match v with
  | PyInt z => Some z
  | _ => None
  end.

(** [d.get(key)]: a missing key reads as [None]. *)
Definition get_or_none (o : option pyval) : pyval := default PyNone o.

(** [range(a, b)] *)
Definition py_range (a b : Z) : list Z := seqZ a (b - a).

(** [enumerate(l)] *)
Definition enumerate {A} (l : list A) : list (nat * A) :=
  zip (seq 0 (length l)) l.

(** Stable sorting.  [sorted] and [list.sort] are stable, and the result of
    a stable sort does not depend on the algorithm, so insertion from the
    right stands for Timsort: [x] is put behind the elements that must stay in
    front of it ([before y x]) and in front of all the others, among them the
    later elements with an equal key. *)
Section stable_sort.
Context {A : Type} (before : A → A → bool).

Fixpoint insert_sorted (x : A) (s : list A) : list A :=
  match s with
  | [] => [x]
  | y :: s' => if before y x then y :: insert_sorted x s' else x :: s
  end.

Definition stable_sort (l : list A) : list A := foldr insert_sorted [] l.
End stable_sort.

(** [sorted(l, key=key)] on integer keys. *)
Definition sort_by {A} (key : A → Z) : list A → list A :=
  stable_sort (λ y x, key y <? key x).

(** [min(...)] and [max(...)] of a non-empty generator of integers; Python
    raises [ValueError] on an empty one. *)
Definition py_min (l : list Z) : option Z :=
  match l with
  | [] => None
  | x :: l' => Some (foldl Z.min x l')
  end.

Definition py_max (l : list Z) : option Z :=
  match l with
  | [] => None
  | x :: l' => Some (foldl Z.max x l')
  end.

(** ** Entities *)

(** A PII entity, a [dict] with the keys [entity], [start], [end] and, after
    geometric mapping, [bbox] and [words].  A missing key is [None] here. *)
Record entity := Entity {
  e_entity : option string;
  e_start : option pyval;
  e_end : option pyval;
  e_bbox : option (list Z);
  e_words : option (list str)
}.

(** [entity.get("entity", "UNKNOWN")] *)
Definition entity_type (e : entity) : string := default "UNKNOWN"%string (e_entity e).

(** ** redact.py: RedactionService.redact_text_entities *)

(** The sort key [e.get("start", 0)]. *)
Definition start_key (e : entity) : pyval := default (PyInt 0) (e_start e).

Definition is_int (v : pyval) : bool :=
  match v with PyInt _ => true | _ => false end.

Definition is_str (v : pyval) : bool :=
  match v with PyStr _ => true | _ => false end.

(** [a < b] on two keys that can be compared. *)
Definition key_lt (a b : pyval) : bool :=
  match a, b with
  | PyInt x, PyInt y => x <? y
  | PyStr s, PyStr t => String.ltb s t
  | _, _ => false
  end.

(** Sorting compares keys with [<].  With two elements or more every element
    is compared with another one, and the comparisons connect all of them, so
    the sort raises [TypeError] exactly when some key is [None] or when
    integers and text are mixed; a list of at most one element is returned
    without any comparison. *)
Definition sortable (ks : list pyval) : bool :=
  (length ks <=? 1)%nat || forallb is_int ks || forallb is_str ks.

(** [sorted(entities, key=lambda e: e.get("start", 0), reverse=True)];
    [None] when the sort raises.  [reverse=True] keeps the sort stable. *)
Definition sorted_entities (entities : list entity) : option (list entity) :=
  if sortable (start_key <$> entities)
  then Some (stable_sort (λ y x, key_lt (start_key x) (start_key y)) entities)
  else None.

(** [f"[REDACTED_{entity_type}]"] *)
Definition redaction_marker (e : entity) : str :=
  lit "[REDACTED_" ++ lit (entity_type e) ++ lit "]".

#[global] Arguments redaction_marker : simpl never.

(** The body of the [for] loop; [None] when a slice raises. *)
Definition redact_entity (redacted_text : str) (e : entity) : option str :=
  match get_or_none (e_start e), get_or_none (e_end e) with
  | PyNone, _ | _, PyNone => Some redacted_text
  | start, end_ =>
      before ← (slice_to redacted_text <$> as_index start);
      after ← (slice_from redacted_text <$> as_index end_);
      Some (before ++ redaction_marker e ++ after)
  end.

Fixpoint redact_loop (redacted_text : str) (l : list entity) : option str :=
  match l with
  | [] => Some redacted_text
  | e :: l' => redact_entity redacted_text e ≫= λ t, redact_loop t l'
  end.

(** The [try] block: [None] when an exception leaves it. *)
Definition redact_text_try (text : str) (entities : list entity) : option str :=
  sorted_entities entities ≫= redact_loop text.

(** The function: the [except] branch returns the original text. *)
Definition redact_text_entities (text : str) (entities : list entity) : str :=
  default text (redact_text_try text entities).

(** *** Vocabulary of the statements about text redaction *)

(** An entity whose two offsets are the integers [s] and [t]. *)
Definition has_span (e : entity) (s t : Z) : Prop :=
  e_start e = Some (PyInt s) ∧ e_end e = Some (PyInt t).

(** A valid offset pair in [text]: a non-empty span inside the text. *)
Definition valid_span (text : str) (e : entity) : Prop :=
  ∃ s t, has_span e s t ∧ 0 ≤ s ∧ s < t ∧ t ≤ len text.

Definition span_start (e : entity) : Z :=
  match e_start e with Some (PyInt s) => s | _ => 0 end.

Definition span_end (e : entity) : Z :=
  match e_end e with Some (PyInt t) => t | _ => 0 end.

(** [a] lies entirely in front of [b]. *)
Definition precedes (a b : entity) : Prop := span_end a ≤ span_start b.

(** Two entities do not overlap. *)
Definition disjoint_spans (a b : entity) : Prop := precedes a b ∨ precedes b a.

(** The text [text] from offset [cur] on, read left to right, with the span of
    every entity of [asc] replaced by its marker and every other character
    kept; [asc] lists the entities from left to right. *)
Fixpoint spliced (text : str) (cur : Z) (asc : list entity) : str :=
  match asc with
  | [] => slice_from text cur
  | e :: asc' =>
      slice text cur (span_start e) ++ redaction_marker e
        ++ spliced text (span_end e) asc'
  end.

(** An entity that lacks an offset: the key is missing or holds [None]. *)
Definition lacks_offset (e : entity) : Prop :=
  get_or_none (e_start e) = PyNone ∨ get_or_none (e_end e) = PyNone.

#[global] Instance lacks_offset_dec e : Decision (lacks_offset e).
Proof. unfold lacks_offset. apply _. Defined.

(** The start offsets are integers wherever the key is present. *)
Definition int_start (e : entity) : Prop :=
  match e_start e with Some v => is_int v = true | None => True end.

(** ** OCR words *)

(** A word of the OCR result, a [dict] with the keys [word], [bbox] (left,
    top, width, height) and [conf]; the confidence is never read here. *)
Record word := Word {
  w_word : option str;
  w_bbox : option (list Z)
}.

(** [w['bbox']] when ['bbox' in w and len(w['bbox']) == 4]. *)
Definition bbox4 (bbox : option (list Z)) : option (Z * Z * Z * Z) :=
  match bbox with
  | Some [x; y; w; h] => Some (x, y, w, h)
  | _ => None
  end.

(** ** pii.py: PIIDetectionService._create_char_to_word_map *)

Fixpoint starts_with (sub text : str) : bool :=
  match sub, text with
  | [], _ => true
  | c :: sub', d :: text' => bool_decide (c = d) && starts_with sub' text'
  | _ :: _, [] => false
  end.

(** The first position at which [sub] occurs in [text]. *)
Fixpoint first_occurrence (sub text : str) : option nat :=
  if starts_with sub text then Some 0%nat
  else match text with
       | [] => None
       | _ :: text' => S <$> first_occurrence sub text'
       end.

(** [text.find(sub, start)]: the lowest index at or after [start] at which
    [sub] occurs, [-1] when there is none. *)
Definition py_find (text sub : str) (start : Z) : Z :=
  if len text <? start then -1
  else
    let i := slice_index (len text) start in
    match first_occurrence sub (drop i text) with
    | Some k => Z.of_nat (i + k)
    | None => -1
    end.

(** [word.get('word', '')] *)
Definition word_text (w : word) : str := default [] (w_word w).

(** The state of the loop: the dictionary built so far and [char_pos]. *)
Definition map_state : Type := gmap Z nat * Z.

(** [for j in range(a, b): char_to_word[j] = i] *)
Definition map_chars (m : gmap Z nat) (a b : Z) (i : nat) : gmap Z nat :=
  foldl (λ m j, <[j := i]> m) m (py_range a b).

(** One iteration of the loop over [enumerate(words)]. *)
Definition map_word (text : str) (st : map_state) (iw : nat * word) : map_state :=
  let '(char_to_word, char_pos) := st in
  let '(i, w) := iw in
  let word_text := word_text w in
  if bool_decide (word_text = []) then st
  else
    let word_pos := py_find text word_text char_pos in
    if bool_decide (word_pos ≠ -1)
    then (map_chars char_to_word word_pos (word_pos + len word_text) i,
          word_pos + len word_text)
    else st.

(** The state after the whole loop. *)
Definition map_words (text : str) (words : list word) : map_state :=
  foldl (map_word text) (∅, 0) (enumerate words).

Definition _create_char_to_word_map (text : str) (words : list word) : gmap Z nat :=
  (map_words text words).1.

(** The cursor [char_pos] when the word of index [i] is reached. *)
Definition cursor_at (text : str) (words : list word) (i : nat) : Z :=
  (map_words text (take i words)).2.

(** The forward search for the word [w] of index [i] succeeds, at position
    [p]: the word has some text and [find] does not answer [-1]. *)
Definition found_at (text : str) (words : list word) (i : nat) (w : word) (p : Z) : Prop :=
  words !! i = Some w ∧ word_text w ≠ [] ∧
  py_find text (word_text w) (cursor_at text words i) = p ∧ p ≠ -1.

(** ** pii.py: PIIDetectionService._map_entity_to_words *)

(** [float('inf')] or an integer. *)
Inductive bound :=
  | Inf
  | Fin (z : Z).

(** [min(b, x)] for an integer [x]. *)
Definition bound_min (b : bound) (x : Z) : Z :=
  match b with
  | Inf => x
  | Fin z => Z.min z x
  end.

(** The indices met on [range(start_char, end_char)]. *)
Definition word_indices (char_to_word_map : gmap Z nat) (start_char end_char : Z) : gset nat :=
  foldl (λ s char_pos,
           match char_to_word_map !! char_pos with
           | Some i => {[i]} ∪ s
           | None => s
           end) ∅ (py_range start_char end_char).

(** The accumulators [min_x], [min_y], [max_x], [max_y], [entity_words]. *)
Record box_acc := BoxAcc {
  min_x : bound;
  min_y : bound;
  max_x : Z;
  max_y : Z;
  entity_words : list str
}.

Definition box_acc_init : box_acc :=
  {| min_x := Inf; min_y := Inf; max_x := 0; max_y := 0; entity_words := [] |}.

(** The body of [for idx in word_indices]. *)
Definition add_word_box (words : list word) (acc : box_acc) (idx : nat) : box_acc :=
  match words !! idx with
  | Some word =>
      match bbox4 (w_bbox word) with
      | Some (x, y, w, h) =>
          {| min_x := Fin (bound_min (min_x acc) x);
             min_y := Fin (bound_min (min_y acc) y);
             max_x := Z.max (max_x acc) (x + w);
             max_y := Z.max (max_y acc) (y + h);
             entity_words := entity_words acc ++ [word_text word] |}
      | None => acc
      end
  | None => acc
  end.

(** [entity['bbox'] = bbox; entity['words'] = words] *)
Definition set_geometry (e : entity) (bbox : list Z) (words : list str) : entity :=
  {| e_entity := e_entity e; e_start := e_start e; e_end := e_end e;
     e_bbox := Some bbox; e_words := Some words |}.

(** [None] stands for the exception of [entity['start']], [entity['end']]
    (a missing key) or of [range] (an offset that is not an integer).
    [min_y] is finite exactly when [min_x] is. *)
Definition _map_entity_to_words
    (e : entity) (char_to_word_map : gmap Z nat) (words : list word)
    : option entity :=
  start_char ← e_start e ≫= as_index;
  end_char ← e_end e ≫= as_index;
  let word_indices := word_indices char_to_word_map start_char end_char in
  if bool_decide (word_indices = ∅) then Some e
  else
    let word_indices := merge_sort Nat.le (elements word_indices) in
    let acc := foldl (add_word_box words) box_acc_init word_indices in
    match min_x acc, min_y acc with
    | Fin min_x, Fin min_y =>
        Some (set_geometry e [min_x; min_y; max_x acc - min_x; max_y acc - min_y]
                (entity_words acc))
    | _, _ => Some e
    end.

(** *** Vocabulary of the statements about the mapping *)

(** The word index [i] is referenced by an offset of [[a, b)]. *)
Definition referenced (m : gmap Z nat) (a b : Z) (i : nat) : Prop :=
  ∃ k, a ≤ k < b ∧ m !! k = Some i.

(** A box in pixel units of the page image. *)
Definition pixel_box (b : Z * Z * Z * Z) : Prop :=
  let '(x, y, w, h) := b in 0 ≤ x ∧ 0 ≤ y ∧ 0 ≤ w ∧ 0 ≤ h.

(** The box [B] covers the box [b]. *)
Definition covers (B b : Z * Z * Z * Z) : Prop :=
  let '(X, Y, W, H) := B in
  let '(x, y, w, h) := b in
  X ≤ x ∧ Y ≤ y ∧ x + w ≤ X + W ∧ y + h ≤ Y + H.

(** The box of the word of index [i]. *)
Definition word_box (words : list word) (i : nat) : option (Z * Z * Z * Z) :=
  words !! i ≫= λ w, bbox4 (w_bbox w).

(** The texts of the words of the indices [idxs], in that order. *)
Definition texts_of (words : list word) (idxs : list nat) : list str :=
  omap (λ i, word_text <$> words !! i) idxs.

(** ** layout.py: LayoutAnalysisService *)

(** The four entries of [w['bbox']].  They are only read on words that went
    through the test ['bbox' in word and len(word['bbox']) == 4]. *)
Definition bbox_left (w : word) : Z :=
  match bbox4 (w_bbox w) with Some (x, _, _, _) => x | None => 0 end.

Definition bbox_top (w : word) : Z :=
  match bbox4 (w_bbox w) with Some (_, y, _, _) => y | None => 0 end.

Definition bbox_width (w : word) : Z :=
  match bbox4 (w_bbox w) with Some (_, _, wd, _) => wd | None => 0 end.

Definition bbox_height (w : word) : Z :=
  match bbox4 (w_bbox w) with Some (_, _, _, h) => h | None => 0 end.

(** [int(y_middle / 5) * 5] with [y_middle = y + h / 2].  The coordinates
    are integers (pixels), so [y_middle] is the exact half-integer
    [(2y + h) / 2]; the quotient by 5 is rounded to binary64, which never
    crosses an integer for pixel-sized values, and [int] truncates towards
    zero: the key is [(2y + h) quot 10], times 5. *)
Definition bucket_key (y h : Z) : Z := Z.quot (2 * y + h) 10 * 5.

(** [lines[key].append(word)] on a [defaultdict(list)]. *)
Definition bucket_append (buckets : gmap Z (list word)) (key : Z) (w : word)
    : gmap Z (list word) :=
  <[key := default [] (buckets !! key) ++ [w]]> buckets.

(** The grouping loop of [_detect_tables] and of [_detect_text_blocks]. *)
Definition group_word (buckets : gmap Z (list word)) (w : word) : gmap Z (list word) :=
  match bbox4 (w_bbox w) with
  | Some (_, y, _, h) => bucket_append buckets (bucket_key y h) w
  | None => buckets
  end.

Definition group_words (words : list word) : gmap Z (list word) :=
  foldl group_word ∅ words.

(** [sorted(buckets.keys())] *)
Definition sorted_keys (buckets : gmap Z (list word)) : list Z :=
  merge_sort Z.le (elements (dom buckets)).

(** [row.sort(key=lambda w: w['bbox'][0])] *)
Definition sort_row (row : list word) : list word := sort_by bbox_left row.

(** *** _detect_tables *)

Record cell := Cell {
  c_row : Z;
  c_col : Z;
  c_text : str;
  c_bbox : option (list Z)
}.

Record table := Table {
  t_bbox : list Z;
  t_rows : Z;
  t_cols : Z;
  t_cells : list cell
}.

(** The rows [potential_rows[row_keys[0]], potential_rows[row_keys[1]], ...].
    The code sorts some of these lists in place while it runs; that is not
    visible in its result, because a row is only read through its length,
    through [min] and [max], or after it has been sorted (again) by the same
    stable sort.  The rows are kept as they were grouped and sorted where the
    code reads their order. *)
Definition table_rows (words : list word) : list (list word) :=
  let potential_rows := group_words words in
  (λ key, default [] (potential_rows !! key)) <$> sorted_keys potential_rows.

(** The first test on three rows. *)
Definition similar_counts (row1 row2 row3 : list word) : bool :=
  (Z.abs (len row1 - len row2) <=? 1)
  && (Z.abs (len row2 - len row3) <=? 1)
  && (2 <=? len row1).

(** The test on the column [j] of three sorted rows: [false] is the [break]. *)
Definition column_close (row1 row2 row3 : list word) (j : nat) : bool :=
  match row1 !! j, row2 !! j, row3 !! j with
  | Some w1, Some w2, Some w3 =>
      let x1 := bbox_left w1 in
      let x2 := bbox_left w2 in
      let x3 := bbox_left w3 in
      negb (50 <? Z.max (Z.max x1 x2) x3 - Z.min (Z.min x1 x2) x3)
  | _, _, _ => true
  end.

(** The loop [for j in range(min(len(row1), len(row2), len(row3)))]. *)
Definition aligned (row1 row2 row3 : list word) : bool :=
  forallb (column_close row1 row2 row3)
    (seq 0 (length row1 `min` (length row2 `min` length row3))).

(** [min(f(w) for w in row)] and [max(...)]; a row of the dictionary is never
    empty. *)
Definition row_min (f : word → Z) (row : list word) : Z := default 0 (py_min (f <$> row)).
Definition row_max (f : word → Z) (row : list word) : Z := default 0 (py_max (f <$> row)).

Definition bbox_right (w : word) : Z := bbox_left w + bbox_width w.
Definition bbox_bottom (w : word) : Z := bbox_top w + bbox_height w.

(** [for j in range(i-1, -1, -1)]: [j] rows are still to be looked at. *)
Fixpoint extend_up (rows : list (list word)) (n1 : Z) (j : nat) (top_row_idx : nat) : nat :=
  match j with
  | O => top_row_idx
  | S j' =>
      if Z.abs (len (default [] (rows !! j')) - n1) <=? 1
      then extend_up rows n1 j' j'
      else top_row_idx
  end.

(** [for j in range(i+3, len(row_keys))]: [below] holds the rows from [j] on. *)
Fixpoint extend_down (below : list (list word)) (n3 : Z) (j : nat) (bottom_row_idx : nat) : nat :=
  match below with
  | [] => bottom_row_idx
  | row :: below' =>
      if Z.abs (len row - n3) <=? 1
      then extend_down below' n3 (S j) j
      else bottom_row_idx
  end.

(** The bounds [(min_x, max_x, min_y, max_y)] and their update by a row. *)
Definition bounds : Type := Z * Z * Z * Z.

Definition update_bounds (b : bounds) (row : list word) : bounds :=
  let '(min_x, max_x, min_y, max_y) := b in
  match row with
  | [] => b
  | _ => (Z.min min_x (row_min bbox_left row), Z.max max_x (row_max bbox_right row),
          Z.min min_y (row_min bbox_top row), Z.max max_y (row_max bbox_bottom row))
  end.

(** The cells of the row of index [row_idx] of the table; [None] is the
    [KeyError] of [word['word']] on a word without text. *)
Definition row_cells (row_idx : nat) (row : list word) : option (list cell) :=
  mapM (λ cw : nat * word,
          text ← w_word cw.2;
          Some {| c_row := Z.of_nat row_idx; c_col := Z.of_nat cw.1;
                  c_text := text; c_bbox := w_bbox cw.2 |})
       (enumerate row).

(** The table built on the seed [row1, row2, row3], the rows of index [i],
    [i+1] and [i+2], already sorted. *)
Definition build_table (rows : list (list word)) (i : nat)
    (row1 row2 row3 : list word) : option table :=
  let min_x := Z.min (Z.min (row_min bbox_left row1) (row_min bbox_left row2))
                     (row_min bbox_left row3) in
  let max_x := Z.max (Z.max (row_max bbox_right row1) (row_max bbox_right row2))
                     (row_max bbox_right row3) in
  let min_y := Z.min (Z.min (row_min bbox_top row1) (row_min bbox_top row2))
                     (row_min bbox_top row3) in
  let max_y := Z.max (Z.max (row_max bbox_bottom row1) (row_max bbox_bottom row2))
                     (row_max bbox_bottom row3) in
  let top_row_idx := extend_up rows (len row1) i i in
  let bottom_row_idx :=
    extend_down (drop (i + 3) rows) (len row3) (i + 3) (i + 2) in
  let all_table_rows :=
    sort_row <$> take (S bottom_row_idx - top_row_idx) (drop top_row_idx rows) in
  let '(min_x, max_x, min_y, max_y) :=
    foldl update_bounds (min_x, max_x, min_y, max_y) all_table_rows in
  cells ← mapM (λ ir : nat * list word, row_cells ir.1 ir.2) (enumerate all_table_rows);
  Some {| t_bbox := [min_x; min_y; max_x - min_x; max_y - min_y];
          t_rows := len all_table_rows;
          t_cols := default 0 (py_max (len <$> all_table_rows));
          t_cells := mjoin cells |}.

(** The two tests of one iteration of [for i in range(len(row_keys) - 2)]:
    the iteration goes on to build a table. *)
Definition seeded (rows : list (list word)) (i : nat) : bool :=
  match rows !! i, rows !! (i + 1)%nat, rows !! (i + 2)%nat with
  | Some row1, Some row2, Some row3 =>
      similar_counts row1 row2 row3
      && aligned (sort_row row1) (sort_row row2) (sort_row row3)
  | _, _, _ => false
  end.

(** The table appended to [tables] by a seeded iteration; [None] is an
    exception.  (The assignment [i = bottom_row_idx] at the end of the body
    is undone by the [for] statement: every [i] is visited.) *)
Definition table_at (rows : list (list word)) (i : nat) : option table :=
  build_table rows i
    (sort_row (default [] (rows !! i)))
    (sort_row (default [] (rows !! (i + 1)%nat)))
    (sort_row (default [] (rows !! (i + 2)%nat))).

(** [None] is an exception leaving the function. *)
Definition _detect_tables (words : list word) : option (list table) :=
  let rows := table_rows words in
  mapM (table_at rows) (filter (λ i, seeded rows i = true) (seq 0 (length rows - 2))).

(** *** Vocabulary of the statements about the table detector *)

(** The left edges of the column [j] of three rows sorted by [x] are at most
    50 pixels apart, for every column present in all three. *)
Definition columns_within_50 (row1 row2 row3 : list word) : Prop :=
  ∀ j w1 w2 w3,
    sort_row row1 !! j = Some w1 → sort_row row2 !! j = Some w2 →
    sort_row row3 !! j = Some w3 →
    Z.max (Z.max (bbox_left w1) (bbox_left w2)) (bbox_left w3)
      - Z.min (Z.min (bbox_left w1) (bbox_left w2)) (bbox_left w3) ≤ 50.

(** The seed condition of the code: the counts of neighbouring rows differ by
    at most 1 and the first row has at least 2 words. *)
Definition seed (row1 row2 row3 : list word) : Prop :=
  Z.abs (len row1 - len row2) ≤ 1 ∧ Z.abs (len row2 - len row3) ≤ 1 ∧
  2 ≤ len row1 ∧ columns_within_50 row1 row2 row3.

(** The seed condition in the words of the specification: the counts differ
    pairwise by at most 1 and the smallest row has at least 2 words. *)
Definition spec_seed (row1 row2 row3 : list word) : Prop :=
  Z.abs (len row1 - len row2) ≤ 1 ∧ Z.abs (len row2 - len row3) ≤ 1 ∧
  Z.abs (len row1 - len row3) ≤ 1 ∧
  2 ≤ Z.min (len row1) (Z.min (len row2) (len row3)) ∧
  columns_within_50 row1 row2 row3.

(** The rows [i], [i+1], [i+2] exist and satisfy [P]. *)
Definition window (P : list word → list word → list word → Prop)
    (rows : list (list word)) (i : nat) : Prop :=
  ∃ row1 row2 row3,
    rows !! i = Some row1 ∧ rows !! (i + 1)%nat = Some row2 ∧
    rows !! (i + 2)%nat = Some row3 ∧ P row1 row2 row3.

(** *** _detect_text_blocks *)

Record block := Block {
  b_text : str;
  b_bbox : list Z;
  b_type : string;
  b_line_count : Z;
  b_word_count : Z
}.

(** The conversion of an [int] to a [float]; exact below [2^53]. *)
Definition float_of_int (z : Z) : float :=
  match z with
  | Zneg p => PrimFloat.opp (PrimFloat.of_uint63 (Uint63.of_Z (Zpos p)))
  | _ => PrimFloat.of_uint63 (Uint63.of_Z z)
  end.

(** [a / b] on two integers: the quotient rounded to binary64, which is the
    quotient of the two conversions as long as they are exact. *)
Definition true_div (a b : Z) : float :=
  PrimFloat.div (float_of_int a) (float_of_int b).

(** The literal [1.2]: the binary64 number next to 6/5, which is
    1.1999999999999999555910790149937 (a little less than 6/5). *)
Definition ratio_1_2 : float := 0x1.3333333333333p+0%float.

(** [sep.join(parts)] *)
Fixpoint py_join (sep : str) (parts : list str) : str :=
  match parts with
  | [] => []
  | [p] => p
  | p :: parts' => p ++ sep ++ py_join sep parts'
  end.

(** [" ".join(w['word'] for w in line)]; [None] is the [KeyError] of a word
    without text. *)
Definition line_text (line : list word) : option str :=
  py_join (lit " ") <$> mapM w_word line.

(** [sum(w['bbox'][3] for w in ws)]; [None] is the [KeyError] or the
    [IndexError] of a word without a fourth box entry. *)
Definition sum_heights (ws : list word) : option Z :=
  foldl Z.add 0 <$> mapM (λ w, w_bbox w ≫= λ bbox, bbox !! 3%nat) ws.

(** The state of the loop over the sorted line keys.  After
    [current_block = line_words; current_block_lines = [line_words]] the two
    variables hold the same list object, so that [current_block.extend(...)]
    also grows the first line of [current_block_lines]: [shared] records
    that. *)
Record block_state := BlockState {
  blocks : list block;
  current_block : list word;
  current_block_lines : list (list word);
  shared : bool;
  previous_key : Z
}.

(** The heading test of a block that is being closed. *)
Definition is_heading (words current_block : list word)
    (current_block_lines : list (list word)) : option bool :=
  if bool_decide (len current_block_lines = 1)
  then
    block_sum ← sum_heights current_block;
    let avg_height := true_div block_sum (len current_block) in
    all_sum ← sum_heights words;
    let avg_height_all := true_div all_sum (len words) in
    Some (PrimFloat.ltb (PrimFloat.mul avg_height_all ratio_1_2) avg_height)
  else Some false.

(** The dictionary appended to [blocks] when a block is closed. *)
Definition close_block (words current_block : list word)
    (current_block_lines : list (list word)) : option block :=
  let min_x := row_min bbox_left current_block in
  let min_y := row_min bbox_top current_block in
  let max_x := row_max bbox_right current_block in
  let max_y := row_max bbox_bottom current_block in
  text ← py_join (lit " ") <$> mapM line_text current_block_lines;
  heading ← is_heading words current_block current_block_lines;
  Some {| b_text := text;
          b_bbox := [min_x; min_y; max_x - min_x; max_y - min_y];
          b_type := if (heading : bool) then "heading"%string else "paragraph"%string;
          b_line_count := len current_block_lines;
          b_word_count := len current_block |}.

(** One iteration of [for i, line_key in enumerate(sorted_line_keys)]. *)
Definition block_step (words : list word) (lines : gmap Z (list word))
    (st : block_state) (line_key : Z) : option block_state :=
  let line_words := sort_row (default [] (lines !! line_key)) in
  match line_words with
  | [] => Some st
  | _ =>
      if bool_decide (current_block st = []) || (line_key - previous_key st <? 20)
      then
        let current_block' := current_block st ++ line_words in
        let lines' :=
          match shared st, current_block_lines st with
          | true, _ :: rest => current_block' :: rest
          | _, ls => ls
          end in
        Some {| blocks := blocks st;
                current_block := current_block';
                current_block_lines := lines' ++ [line_words];
                shared := shared st;
                previous_key := line_key |}
      else
        b ← close_block words (current_block st) (current_block_lines st);
        Some {| blocks := blocks st ++ [b];
                current_block := line_words;
                current_block_lines := [line_words];
                shared := true;
                previous_key := line_key |}
  end.

Fixpoint block_loop (words : list word) (lines : gmap Z (list word))
    (st : block_state) (keys : list Z) : option block_state :=
  match keys with
  | [] => Some st
  | line_key :: keys' =>
      block_step words lines st line_key ≫= λ st', block_loop words lines st' keys'
  end.

(** [None] is an exception leaving the function. *)
Definition _detect_text_blocks (words : list word) : option (list block) :=
  match words with
  | [] => Some []
  | _ =>
      let lines := group_words words in
      st ← block_loop words lines
              {| blocks := []; current_block := []; current_block_lines := [];
                 shared := false; previous_key := 0 |}
              (sorted_keys lines);
      match current_block st with
      | [] => Some (blocks st)
      | _ =>
          b ← close_block words (current_block st) (current_block_lines st);
          Some (blocks st ++ [b])
      end
  end.

(** *** Vocabulary of the statement about headings *)

(** The mean height [block_sum / block_count] of a block is exactly 1.2 times
    the mean height [all_sum / all_count] of the page, as rational numbers:
    [block_sum / block_count = 6/5 * all_sum / all_count]. *)
Definition exactly_1_2_times (block_sum block_count all_sum all_count : Z) : Prop :=
  5 * block_sum * all_count = 6 * all_sum * block_count.

(** ** redact.py: RedactionService.redact_image *)

(** A rectangle [[(x1, y1), (x2, y2)]] as given to [draw.rectangle]. *)
Definition rectangle : Type := Z * Z * Z * Z.

(** An image: its size and the rectangles filled on it so far, with their
    colours, in the order of the fills.  The pixels are not modelled. *)
Record image := Image {
  img_width : Z;
  img_height : Z;
  img_fills : list (rectangle * string)
}.

(** A file name: a file that exists before the engine runs, or the [n]-th
    file made by [tempfile.NamedTemporaryFile], whose name is new. *)
Inductive path :=
  | Existing (name : string)
  | Created (n : nat).

(** The image files.  A temporary file that was made and never written
    completely holds no image ([None]). *)
Record world := World {
  existing : gmap string image;
  created : list (option image)
}.

(** [Image.open(path)]; [None] is its exception. *)
Definition open_image (w : world) (p : path) : option image :=
  match p with
  | Existing name => existing w !! name
  | Created n => mjoin (created w !! n)
  end.

(** What the imaging library decides: whether [draw.rectangle] accepts a
    rectangle (recent versions raise [ValueError] when [x2 < x1] or
    [y2 < y1]) and whether the image can be saved as JPEG (an image with an
    alpha channel cannot). *)
Record imaging := Imaging {
  rectangle_ok : rectangle → bool;
  save_ok : image → bool
}.

(** An entry of [redacted_areas]. *)
Record area := Area {
  a_entity_type : string;
  a_bbox : list Z
}.

(** The padded box of an entity box on an image, clamped to the image. *)
Definition padded (img : image) (b : Z * Z * Z * Z) : rectangle :=
  let '(x, y, width, height) := b in
  (Z.max 0 (x - 5), Z.max 0 (y - 5),
   Z.min (img_width img) (x + width + 5), Z.min (img_height img) (y + height + 5)).

(** [[x1, y1, x2 - x1, y2 - y1]] *)
Definition area_bbox (r : rectangle) : list Z :=
  let '(x1, y1, x2, y2) := r in [x1; y1; x2 - x1; y2 - y1].

(** The body of the loop over the entities: the image with one more fill and
    the areas with one more entry, for an entity with a box of 4 entries;
    [None] is the exception of [draw.rectangle]. *)
Definition redact_box (lib : imaging) (redaction_color : string)
    (st : image * list area) (e : entity) : option (image * list area) :=
  let '(img, redacted_areas) := st in
  match bbox4 (e_bbox e) with
  | Some b =>
      let r := padded img b in
      if rectangle_ok lib r
      then Some ({| img_width := img_width img; img_height := img_height img;
                    img_fills := img_fills img ++ [(r, redaction_color)] |},
                 redacted_areas
                   ++ [{| a_entity_type := entity_type e; a_bbox := area_bbox r |}])
      else None
  | None => Some st
  end.

Fixpoint redact_boxes (lib : imaging) (redaction_color : string)
    (st : image * list area) (pii_entities : list entity) : option (image * list area) :=
  match pii_entities with
  | [] => Some st
  | e :: es => redact_box lib redaction_color st e ≫= λ st', redact_boxes lib redaction_color st' es
  end.

(** [w] with one more temporary file. *)
Definition add_created (w : world) (content : option image) : world :=
  {| existing := existing w; created := created w ++ [content] |}.

(** The function returns the pair [(path, redacted_areas)] and leaves the
    files in a new state.  Every exception ends in the [except] branch, which
    returns the path it was given and no area. *)
Definition redact_image (lib : imaging) (w : world) (image_path : option string)
    (pii_entities : list entity) (redaction_color : string)
    : (option path * list area) * world :=
  let failed := (Existing <$> image_path, []) in
  match image_path ≫= λ name, existing w !! name with
  | None => (failed, w)
  | Some img =>
      match redact_boxes lib redaction_color (img, []) pii_entities with
      | None => (failed, w)
      | Some (img', redacted_areas) =>
          if save_ok lib img'
          then ((Some (Created (length (created w))), redacted_areas),
                add_created w (Some img'))
          else (failed, add_created w None)
      end
  end.

(** ** redact.py: RedactionService.process_document *)

(** An entry of [document_data["processed_pages"]]. *)
Record doc_page := DocPage {
  dp_page_num : option Z;
  dp_temp_path : option string
}.

Record document_data := DocumentData {
  dd_status : option string;
  dd_processed_pages : list doc_page
}.

(** An entry of [ocr_results["pages"]]. *)
Record ocr_page := OcrPage {
  op_page_num : option Z;
  op_text : option str
}.

(** The value under [ocr_results["pages"]]: the list of pages that the
    function expects (a missing key reads as the empty list), or the number
    of pages, which is what [OCRService.process_document] stores there. *)
Inductive ocr_pages :=
  | PageList (pages : list ocr_page)
  | PageCount (n : Z).

Record ocr_results := OcrResults {
  or_status : option string;
  or_pages : ocr_pages
}.

(** An entry of [pii_results["results"]]. *)
Record pii_page := PiiPage {
  pp_status : option string;
  pp_message : option string;
  pp_entities : list entity
}.

(** The entries are dictionaries; [NotADict] stands for [None] in their
    place. *)
Inductive pii_entry :=
  | PiiDict (p : pii_page)
  | NotADict.

Record pii_results := PiiResults {
  pr_status : option string;
  pr_results : list pii_entry
}.

(** An entry of [redacted_pages]. *)
Record redacted_page := RedactedPage {
  rp_page_num : Z;
  rp_status : string;
  rp_message : option string;
  rp_redacted_text : option str;
  rp_redacted_path : option (option path);
  rp_redactions : option Z;
  rp_redacted_areas : option (list area)
}.

(** The dictionary returned by [process_document]. *)
Inductive redaction_result :=
  | RedactionError (message : string)
  | RedactionSuccess (pages : Z) (total_redactions : Z)
      (redacted_pages : list redacted_page) (redacted_texts : list (Z * str)).

Definition result_status (r : redaction_result) : string :=
  match r with
  | RedactionError _ => "error"
  | RedactionSuccess _ _ _ _ => "success"
  end.

Definition result_pages (r : redaction_result) : list redacted_page :=
  match r with
  | RedactionError _ => []
  | RedactionSuccess _ _ redacted_pages _ => redacted_pages
  end.

(** An exception, with the text of [str(e)]. *)
Inductive exn :=
  | AttributeError (msg : string)
  | TypeError (msg : string).

Definition exn_str (e : exn) : string :=
  match e with
  | AttributeError msg => msg
  | TypeError msg => msg
  end.

Definition is_success (status : option string) : bool :=
  bool_decide (status = Some "success"%string).

(** [next((p for p in pages if p.get("page_num") == n), None)] *)
Definition find_page {A} (page_num : A → option Z) (pages : list A) (n : Z) : option A :=
  snd <$> list_find (λ p, page_num p = Some n) pages.

Definition error_page (page_num : Z) (message : string) : redacted_page :=
  {| rp_page_num := page_num; rp_status := "error"; rp_message := Some message;
     rp_redacted_text := None; rp_redacted_path := None; rp_redactions := None;
     rp_redacted_areas := None |}.

(** What one iteration adds: the entry of [redacted_pages], the entry of
    [redacted_texts] if any, the increment of [total_redactions], and the
    new state of the files. *)
Definition page_outcome : Type := redacted_page * option (Z * str) * Z * world.

(** The [try] block of the loop body, for the entry [pii_page] of index
    [page_num]. *)
Definition redact_page_try (lib : imaging) (doc : document_data) (ocr : ocr_results)
    (w : world) (page_num : nat) (entry : pii_entry) : exn + page_outcome :=
  let n := Z.of_nat page_num + 1 in
  match entry with
  | NotADict => inl (AttributeError "'NoneType' object has no attribute 'get'")
  | PiiDict pii_page =>
      if negb (is_success (pp_status pii_page))
      then inr (error_page n
                  ("PII detection failed for this page: "
                     +:+ default "Unknown error"%string (pp_message pii_page)),
                None, 0, w)
      else
        match find_page dp_page_num (dd_processed_pages doc) n with
        | None => inr (error_page n "Could not find document page", None, 0, w)
        | Some doc_page =>
            let pii_entities := pp_entities pii_page in
            match or_pages ocr with
            | PageCount _ => inl (TypeError "'int' object is not iterable")
            | PageList pages =>
                let ocr_page := find_page op_page_num pages n in
                let redacted_text :=
                  match ocr_page ≫= op_text, pii_entities with
                  | Some original_text, _ :: _ =>
                      Some (redact_text_entities original_text pii_entities)
                  | _, _ => None
                  end in
                match pii_entities with
                | [] =>
                    inr ({| rp_page_num := n; rp_status := "success";
                            rp_message := Some "No PII entities to redact"%string;
                            rp_redacted_text := redacted_text;
                            rp_redacted_path := Some (Existing <$> dp_temp_path doc_page);
                            rp_redactions := Some 0;
                            rp_redacted_areas := None |},
                         None, 0, w)
                | _ =>
                    let '((redacted_image_path, redacted_areas), w') :=
                      redact_image lib w (dp_temp_path doc_page) pii_entities "black" in
                    inr ({| rp_page_num := n; rp_status := "success";
                            rp_message := None;
                            rp_redacted_text := redacted_text;
                            rp_redacted_path := Some redacted_image_path;
                            rp_redactions := Some (len redacted_areas);
                            rp_redacted_areas := Some redacted_areas |},
                         (λ t, (n, t)) <$> redacted_text, len redacted_areas, w')
                end
            end
        end
  end.

(** The loop body with its [except] branch. *)
Definition redact_page (lib : imaging) (doc : document_data) (ocr : ocr_results)
    (w : world) (page_num : nat) (entry : pii_entry) : page_outcome :=
  match redact_page_try lib doc ocr w page_num entry with
  | inr outcome => outcome
  | inl e =>
      (error_page (Z.of_nat page_num + 1) ("Redaction error: " +:+ exn_str e), None, 0, w)
  end.

(** The variables of the loop and the files. *)
Record engine_state := EngineState {
  redacted_pages : list redacted_page;
  total_redactions : Z;
  redacted_texts : list (Z * str);
  files : world
}.

Definition engine_step (lib : imaging) (doc : document_data) (ocr : ocr_results)
    (st : engine_state) (ie : nat * pii_entry) : engine_state :=
  let '(page, text, count, w') := redact_page lib doc ocr (files st) ie.1 ie.2 in
  {| redacted_pages := redacted_pages st ++ [page];
     total_redactions := total_redactions st + count;
     redacted_texts := redacted_texts st ++ option_list text;
     files := w' |}.

Definition engine_loop (lib : imaging) (doc : document_data) (ocr : ocr_results)
    (w : world) (entries : list pii_entry) : engine_state :=
  foldl (engine_step lib doc ocr)
    {| redacted_pages := []; total_redactions := 0; redacted_texts := []; files := w |}
    (enumerate entries).

(** The function, with the files before and after. *)
Definition process_document (lib : imaging) (w : world)
    (document_data : document_data) (ocr_results : ocr_results)
    (pii_results : pii_results) : redaction_result * world :=
  if negb (is_success (dd_status document_data))
     || negb (is_success (or_status ocr_results))
     || negb (is_success (pr_status pii_results))
  then (RedactionError
          "Cannot redact document due to preprocessing, OCR, or PII detection errors", w)
  else
    let st := engine_loop lib document_data ocr_results w (pr_results pii_results) in
    (RedactionSuccess (len (redacted_pages st)) (total_redactions st)
       (redacted_pages st) (redacted_texts st),
     files st).

(** *** Vocabulary of the statements about the engine *)

(** [len(page.get("redacted_areas", []))] *)
Definition areas_of (p : redacted_page) : list area := default [] (rp_redacted_areas p).

(** The sum of the lengths of the [redacted_areas] of the pages. *)
Definition sum_of_areas (pages : list redacted_page) : Z :=
  foldr (λ p s, len (areas_of p) + s) 0 pages.

(** The box recorded in an area, as the rectangle that was drawn. *)
Definition area_rectangle (a : area) : option rectangle :=
  match a_bbox a with
  | [x1; y1; w; h] => Some (x1, y1, x1 + w, y1 + h)
  | _ => None
  end.

(** The entities that carry a box of 4 entries, with that box. *)
Definition boxed_entities (es : list entity) : list (entity * (Z * Z * Z * Z)) :=
  omap (λ e, (λ b, (e, b)) <$> bbox4 (e_bbox e)) es.

(** The source page of the entry of index [i]: its path in
    [processed_pages]. *)
Definition source_path (doc : document_data) (i : nat) : option string :=
  find_page dp_page_num (dd_processed_pages doc) (Z.of_nat i + 1) ≫= dp_temp_path.




(** The files of [w'] are those of [w] and some more temporary files. *)
Definition world_extends (w w' : world) : Prop :=
  existing w' = existing w ∧ created w `prefix_of` created w'.

(** The area recorded for a boxed entity on the image [img], and the fill
    made for it. *)
Definition area_for (img : image) (eb : entity * (Z * Z * Z * Z)) : area :=
  {| a_entity_type := entity_type eb.1; a_bbox := area_bbox (padded img eb.2) |}.

Definition fill_for (img : image) (color : string) (eb : entity * (Z * Z * Z * Z))
    : rectangle * string :=
  (padded img eb.2, color).

(** The entry of [redacted_texts] that goes with an entry of
    [redacted_pages]: the page number and the [redacted_text], if any. *)
Definition text_entry (p : redacted_page) : option (Z * str) :=
  (λ t, (rp_page_num p, t)) <$> rp_redacted_text p.

(** [redacted_results.get("total_redactions", 0)] *)
Definition result_total (r : redaction_result) : Z :=
  match r with
  | RedactionError _ => 0
  | RedactionSuccess _ total_redactions _ _ => total_redactions
  end.

(** ** redact.py: RedactionService.create_redaction_report *)

(** The keys of [pii_results] that the report reads.  The types are a list
    made from a [set], whose order is not fixed: they are kept as a set. *)
Record pii_summary := PiiSummary {
  ps_sensitivity : option string;
  ps_entity_types : option (gset (option string));
  ps_entity_count : option Z
}.

Record report_summary := ReportSummary {
  sum_total_pages : Z;
  sum_total_redactions : Z;
  sum_sensitivity : string;
  sum_entity_types : gset (option string);
  sum_entity_count : Z
}.

(** An entry of [report["pages"]]. *)
Record page_report := PageReport {
  rpt_page_num : Z;
  rpt_redactions : Z;
  rpt_redacted_areas : list area;
  rpt_redacted_text : option str
}.

Record report := Report {
  report_summary_of : report_summary;
  report_pages : list page_report
}.

Inductive report_result :=
  | ReportError (message : string)
  | ReportSuccess (output_path : string) (r : report).

(** The body of [for page in redacted_results.get("redacted_pages", [])]:
    the entry made for a page, none for a page that is not a success. *)
Definition report_page (page : redacted_page) : option page_report :=
  if bool_decide (rp_status page = "success"%string)
  then Some {| rpt_page_num := rp_page_num page;
               rpt_redactions := default 0 (rp_redactions page);
               rpt_redacted_areas := default [] (rp_redacted_areas page);
               rpt_redacted_text := rp_redacted_text page |}
  else None.

Definition build_report (redacted_results : redaction_result) (pii_results : pii_summary)
    : report :=
  let report :=
    {| report_summary_of :=
         {| sum_total_pages := len (result_pages redacted_results);
            sum_total_redactions := result_total redacted_results;
            sum_sensitivity := default "unknown"%string (ps_sensitivity pii_results);
            sum_entity_types := default ∅ (ps_entity_types pii_results);
            sum_entity_count := default 0 (ps_entity_count pii_results) |};
       report_pages := [] |} in
  foldl (λ report page,
           match report_page page with
           | Some page_report =>
               {| report_summary_of := report_summary_of report;
                  report_pages := report_pages report ++ [page_report] |}
           | None => report
           end)
    report (result_pages redacted_results).

(** The function.  [write] stands for the file system: the outcome of
    making the directory and of writing the report to [output_path], [None]
    when that went well and the text of the exception otherwise. *)
Definition create_redaction_report (write : string → report → option string)
    (redacted_results : redaction_result) (pii_results : pii_summary)
    (output_path : string) : report_result :=
  let report := build_report redacted_results pii_results in
  match write output_path report with
  | None => ReportSuccess output_path report
  | Some e => ReportError ("Error creating redaction report: " +:+ e)
  end.

(** ** redact.py: RedactionService.redact_pdf *)

(** An entity as [redact_pdf] reads it: the key [page_num], and the rest. *)
Record paged_entity := PagedEntity {
  pe_page_num : option Z;
  pe_entity : entity
}.

(** The loop that fills [entities_by_page]. *)
Definition group_by_page (entities : list paged_entity) : gmap Z (list paged_entity) :=
  foldl (λ entities_by_page e,
           let page_num := default 0 (pe_page_num e) in
           <[page_num := default [] (entities_by_page !! page_num) ++ [e]]> entities_by_page)
    ∅ entities.

(** [sum(len(entities) for entities in entities_by_page.values())] *)
Definition grouped_total {A} (groups : gmap Z (list A)) : Z :=
  Z.of_nat (sum_list_with (λ kv, length kv.2) (map_to_list groups)).

Record pdf_libraries := PdfLibraries {
  pypdf2_available : bool;
  pikepdf_available : bool
}.

Inductive pdf_result :=
  | PdfError (message : string)
  | PdfSuccess (output_path : string) (pages_processed : Z) (total_redactions : Z).

(** The function.  Both library branches copy the pages of [pdf_path] to
    [output_path] and change nothing on them; [copy] stands for these file
    operations, with the text of the exception when one of them raises. *)
Definition redact_pdf (libs : pdf_libraries) (copy : string → string → option string)
    (pdf_path : string) (entities : list paged_entity) (output_path : string)
    : pdf_result :=
  if negb (pypdf2_available libs) && negb (pikepdf_available libs)
  then PdfError "PDF redaction libraries are not available"
  else
    let entities_by_page := group_by_page entities in
    match copy pdf_path output_path with
    | Some e => PdfError ("Error redacting PDF: " +:+ e)
    | None =>
        PdfSuccess output_path (Z.of_nat (size entities_by_page))
          (grouped_total entities_by_page)
    end.

(** *** Vocabulary of the statements about the report *)

(** The sum of the [redactions] of the pages of a report. *)
Definition sum_redactions (pages : list page_report) : Z :=
  foldr (λ p s, rpt_redactions p + s) 0 pages.

(** A file system that accepts every write. *)
Definition write_always : string → report → option string := λ _ _, None.

(** The page numbers [e.get("page_num", 0)] of the entities. *)
Definition page_numbers (entities : list paged_entity) : gset Z :=
  list_to_set ((λ e, default 0 (pe_page_num e)) <$> entities).

(** ** pii.py: PIIDetectionService.detect_pii_in_doc *)

(** The OCR result of a page, as [OCRService.run_ocr] makes it: a [dict]
    with the keys [status], [message], [text] and [words]. *)
Record ocr_page_result := OcrPageResult {
  opr_status : option string;
  opr_message : option string;
  opr_text : option str;
  opr_words : option (list word)
}.

(** [c.isspace()] for a character below 256. *)
Definition is_space (c : ascii) : bool :=
  let n := nat_of_ascii c in
  ((9 <=? n) && (n <=? 13) || (28 <=? n) && (n <=? 32) || (n =? 133) || (n =? 160))%nat.

(** [not text.strip()] *)
Definition blank (text : str) : bool := forallb is_space text.

(** An entry of the list returned by [detect_pii_in_doc]. *)
Record pii_page_result := PiiPageResult {
  ppr_page_num : Z;
  ppr_status : string;
  ppr_message : option string;
  ppr_entities : option (list entity);
  ppr_entity_count : option Z
}.

Definition pii_note (page_num : Z) (status message : string) : pii_page_result :=
  {| ppr_page_num := page_num; ppr_status := status; ppr_message := Some message;
     ppr_entities := None; ppr_entity_count := None |}.

(** [str(e)] for the exception of [_map_entity_to_words]: the [KeyError] of
    [entity['start']] or [entity['end']], or the [TypeError] of [range],
    which looks at its first argument first. *)
Definition map_entity_error (e : entity) : string :=
  match e_start e, e_end e with
  | None, _ => "'start'"
  | Some _, None => "'end'"
  | Some PyNone, Some _ => "'NoneType' object cannot be interpreted as an integer"
  | Some (PyStr _), Some _ => "'str' object cannot be interpreted as an integer"
  | Some (PyInt _), Some PyNone => "'NoneType' object cannot be interpreted as an integer"
  | Some (PyInt _), Some (PyStr _) => "'str' object cannot be interpreted as an integer"
  | Some (PyInt _), Some (PyInt _) => ""
  end.

(** The loop [for entity in pii_entities] that fills [mapped_entities]; the
    first exception leaves it, with its text.  A mapped entity is a [dict]
    with the key [start], so that [if mapped_entity] holds. *)
Fixpoint map_entities (char_to_word_map : gmap Z nat) (words : list word)
    (pii_entities : list entity) : string + list entity :=
  match pii_entities with
  | [] => inr []
  | e :: es =>
      match _map_entity_to_words e char_to_word_map words with
      | None => inl (map_entity_error e)
      | Some mapped_entity =>
          match map_entities char_to_word_map words es with
          | inl msg => inl msg
          | inr mapped_entities => inr (mapped_entity :: mapped_entities)
          end
      end
  end.

Section detector.

(** [PIIDetectionService.detect_pii]: the analyzer of Presidio or the
    regular expressions of the fallback.  It catches its own exceptions. *)
Variable detect_pii : str → list entity.

(** The [try] block of the loop body for the page of index [page_num];
    [inl] is the text of an exception. *)
Definition detect_page_try (page_num : nat) (page_ocr : ocr_page_result)
    : string + pii_page_result :=
  let n := Z.of_nat page_num + 1 in
  if negb (is_success (opr_status page_ocr))
  then inr (pii_note n "error"
              ("OCR failed for this page: "
                 +:+ default "Unknown error"%string (opr_message page_ocr)))
  else
    let text := default [] (opr_text page_ocr) in
    if blank text
    then inr (pii_note n "warning" "No text found in OCR results")
    else
      let pii_entities := detect_pii text in
      let words := default [] (opr_words page_ocr) in
      let mapped :=
        match words with
        | [] => inr pii_entities
        | _ => map_entities (_create_char_to_word_map text words) words pii_entities
        end in
      match mapped with
      | inl msg => inl msg
      | inr mapped_entities =>
          inr {| ppr_page_num := n; ppr_status := "success"; ppr_message := None;
                 ppr_entities := Some mapped_entities;
                 ppr_entity_count := Some (len mapped_entities) |}
      end.

(** The loop body with its [except] branch. *)
Definition detect_page (page_num : nat) (page_ocr : ocr_page_result) : pii_page_result :=
  match detect_page_try page_num page_ocr with
  | inr result => result
  | inl msg => pii_note (Z.of_nat page_num + 1) "error" ("PII detection error: " +:+ msg)
  end.

Definition detect_pii_in_doc (ocr_results : list ocr_page_result) : list pii_page_result :=
  match ocr_results with
  | [] => [pii_note 0 "error" "No OCR results provided"]
  | _ =>
      foldl (λ pii_results ip, pii_results ++ [detect_page ip.1 ip.2]) []
        (enumerate ocr_results)
  end.

(** ** pii.py: PIIDetectionService.process_document *)

(** The keys [status] and [results] of the OCR result of a document. *)
Record ocr_document := OcrDocument {
  od_status : option string;
  od_results : list ocr_page_result
}.

(** The dictionary returned by [process_document]; the entity types are a
    list made from a [set], whose order is not fixed: they are kept as a
    set. *)
Inductive pii_document :=
  | PiiError (message : string)
  | PiiSuccess (pages : Z) (results : list pii_page_result) (sensitivity : string)
      (entity_count : Z) (entity_types : gset (option string)).

(** [sum(page.get("entity_count", 0) for page in pii_page_results
         if page.get("status") == "success")] *)
Definition total_entities (pii_page_results : list pii_page_result) : Z :=
  foldr (λ page s,
           if bool_decide (ppr_status page = "success"%string)
           then default 0 (ppr_entity_count page) + s else s)
    0 pii_page_results.

(** The loop that fills [entity_types]. *)
Definition collect_types (pii_page_results : list pii_page_result) : gset (option string) :=
  foldl (λ entity_types page,
           if bool_decide (ppr_status page = "success"%string)
           then foldl (λ entity_types entity, {[e_entity entity]} ∪ entity_types)
                  entity_types (default [] (ppr_entities page))
           else entity_types)
    ∅ pii_page_results.

Definition sensitivity_of (total_entities : Z) : string :=
  if total_entities =? 0 then "low"
  else if total_entities <? 5 then "medium"
  else "high".

Definition pii_process_document (ocr_results : ocr_document) : pii_document :=
  if negb (is_success (od_status ocr_results))
  then PiiError "Cannot process document due to OCR errors"
  else
    let page_results := od_results ocr_results in
    let pii_page_results := detect_pii_in_doc page_results in
    let total_entities := total_entities pii_page_results in
    let entity_types := collect_types pii_page_results in
    PiiSuccess (len pii_page_results) pii_page_results (sensitivity_of total_entities)
      total_entities entity_types.

(** *** Vocabulary of the statements about the detection of a document *)

(** The page has text to analyse: its OCR is a success and its text is not
    blank. *)
Definition analysed (page : ocr_page_result) : Prop :=
  opr_status page = Some "success"%string ∧ blank (default [] (opr_text page)) = false.

(** What the detector finds on the page. *)
Definition detections (page : ocr_page_result) : list entity :=
  detect_pii (default [] (opr_text page)).

(** The words of the page and the character-to-word map made for them. *)
Definition page_words (page : ocr_page_result) : list word := default [] (opr_words page).

Definition page_map (page : ocr_page_result) : gmap Z nat :=
  _create_char_to_word_map (default [] (opr_text page)) (page_words page).

End detector.

(** The two offsets of the entity are integers, as the detector makes
    them. *)
Definition int_span (e : entity) : Prop := ∃ a b, has_span e a b.

#[global] Instance int_span_dec e : Decision (int_span e).
Proof.
  unfold int_span, has_span.
  destruct (e_start e) as [[| a |]|]; try (right; intros (? & ? & ? & ?); congruence).
  destruct (e_end e) as [[| b |]|]; try (right; intros (? & ? & ? & ?); congruence).
  left. by exists a, b.
Defined.

(** The page entry as the redaction engine reads it. *)
Definition as_pii_entry (r : pii_page_result) : pii_entry :=
  PiiDict {| pp_status := Some (ppr_status r); pp_message := ppr_message r;
             pp_entities := default [] (ppr_entities r) |}.

(** The number of entities that the detector finds on a page that is
    analysed, 0 for another page. *)
Definition found_on (detect_pii : str → list entity) (page : ocr_page_result) : Z :=
  if is_success (opr_status page) && negb (blank (default [] (opr_text page)))
  then len (detect_pii (default [] (opr_text page)))
  else 0.

Definition found_in (detect_pii : str → list entity) (pages : list ocr_page_result) : Z :=
  foldr (λ page s, found_on detect_pii page + s) 0 pages.

(** The first entity of [es] whose offsets are not two integers is [e]. *)
Definition first_malformed (es : list entity) (e : entity) : Prop :=
  ∃ l1 l2, es = l1 ++ e :: l2 ∧ Forall int_span l1 ∧ ¬ int_span e.

(** What an entry adds to [total_entities]. *)
Definition counted (r : pii_page_result) : Z :=
  if bool_decide (ppr_status r = "success"%string)
  then default 0 (ppr_entity_count r) else 0.

(** ** Example data *)

(** The example of the specification. *)
Definition ssn_entity : entity :=
  {| e_entity := Some "SSN"%string; e_start := Some (PyInt 4);
     e_end := Some (PyInt 15); e_bbox := None; e_words := None |}.

(** A second entity, in front of the first one. *)
Definition nine_entity : entity :=
  {| e_entity := Some "ID"%string; e_start := Some (PyInt 0);
     e_end := Some (PyInt 3); e_bbox := None; e_words := None |}.


(** An entity without offsets, as in the repository's own test. *)
Definition bare_entity : entity :=
  {| e_entity := Some "TEST"%string; e_start := None; e_end := None;
     e_bbox := None; e_words := None |}.

(** The words of the example of the specification. *)
Definition hello_world : list word :=
  [ {| w_word := Some (lit "Hello"); w_bbox := Some [10; 20; 50; 12] |};
    {| w_word := Some (lit "World"); w_bbox := Some [70; 20; 55; 12] |} ].

(** An entity on the characters 1 to 5 of "Hello World". *)
Definition greeting_entity : entity :=
  {| e_entity := Some "GREETING"%string; e_start := Some (PyInt 1);
     e_end := Some (PyInt 6); e_bbox := None; e_words := None |}.

(** A word with the text [t] and the box [(x, y, w, h)]. *)
Definition word_at (t : string) (x y w h : Z) : word :=
  {| w_word := Some (lit t); w_bbox := Some [x; y; w; h] |}.

(** Three rows of 2, 1 and 2 words in aligned columns. *)
Definition words_2_1_2 : list word :=
  [ word_at "a1" 0 0 40 10;  word_at "a2" 100 0 40 10;
    word_at "b1" 0 20 40 10;
    word_at "c1" 0 40 40 10; word_at "c2" 100 40 40 10 ].

(** Three rows of 2, 3 and 4 words in aligned columns. *)
Definition words_2_3_4 : list word :=
  [ word_at "a1" 0 0 40 10;  word_at "a2" 100 0 40 10;
    word_at "b1" 0 20 40 10; word_at "b2" 100 20 40 10; word_at "b3" 200 20 40 10;
    word_at "c1" 0 40 40 10; word_at "c2" 100 40 40 10; word_at "c3" 200 40 40 10;
    word_at "c4" 300 40 40 10 ].

(** Three rows of 3 words each, the columns aligned within 10 pixels. *)
Definition words_3_3_3 : list word :=
  [ word_at "a1" 0 0 40 10;  word_at "a2" 100 0 40 10;  word_at "a3" 200 0 40 10;
    word_at "b1" 5 20 40 10; word_at "b2" 105 20 40 10; word_at "b3" 205 20 40 10;
    word_at "c1" 10 40 40 10; word_at "c2" 110 40 40 10; word_at "c3" 210 40 40 10 ].

(** A page of three words: a title of height 14 on a line of its own and,
    40 pixels below, a line of two words of heights 10 and 11.  The page mean
    is 35/3 and the mean of the title line is 14 = 1.2 * 35/3. *)
Definition title_page : list word :=
  [ word_at "Title" 0 0 50 14;
    word_at "some" 0 40 30 10; word_at "text" 40 40 30 11 ].

(** The same layout with heights 12, 9 and 9: the page mean is 10 and the
    mean of the title line is 12 = 1.2 * 10. *)
Definition title_page_10 : list word :=
  [ word_at "Title" 0 0 50 12;
    word_at "some" 0 40 30 9; word_at "text" 40 40 30 9 ].

(** An imaging library that refuses reversed rectangles and saves every
    image. *)
Definition strict_imaging : imaging :=
  {| rectangle_ok := λ '(x1, y1, x2, y2), (x1 <=? x2) && (y1 <=? y2);
     save_ok := λ _, true |}.

(** A document of three pages of 800 by 600 pixels; the files of pages 1 and
    3 are images, the file of page 2 is missing. *)
Definition blank_page : image :=
  {| img_width := 800; img_height := 600; img_fills := [] |}.

Definition three_files : world :=
  {| existing := {[ "page1.jpg"%string := blank_page; "page3.jpg"%string := blank_page ]};
     created := [] |}.

Definition three_pages : document_data :=
  {| dd_status := Some "success"%string;
     dd_processed_pages :=
       [ {| dp_page_num := Some 1; dp_temp_path := Some "page1.jpg"%string |};
         {| dp_page_num := Some 3; dp_temp_path := Some "page3.jpg"%string |} ] |}.

Definition three_texts : ocr_results :=
  {| or_status := Some "success"%string;
     or_pages :=
       PageList
         [ {| op_page_num := Some 1; op_text := Some (lit "SSN 123-45-6789 end") |};
           {| op_page_num := Some 2; op_text := Some (lit "SSN 123-45-6789 end") |};
           {| op_page_num := Some 3; op_text := Some (lit "SSN 123-45-6789 end") |} ] |}.

(** The entity of the text example, with a box. *)
Definition boxed_ssn : entity :=
  {| e_entity := Some "SSN"%string; e_start := Some (PyInt 4);
     e_end := Some (PyInt 15); e_bbox := Some [2; 100; 200; 20]; e_words := None |}.

Definition ssn_page : pii_entry :=
  PiiDict {| pp_status := Some "success"%string; pp_message := None;
             pp_entities := [boxed_ssn; nine_entity] |}.

Definition three_findings : pii_results :=
  {| pr_status := Some "success"%string; pr_results := [ssn_page; ssn_page; ssn_page] |}.


(** The OCR result as [OCRService.process_document] builds it: the number of
    pages under the key [pages]. *)
Definition counted_texts : ocr_results :=
  {| or_status := Some "success"%string; or_pages := PageCount 3 |}.

(** An address that holds a name: two entities, one nested in the other, on
    "John Smith, 12 Main St". *)
Definition outer_entity : entity :=
  {| e_entity := Some "ADDRESS"%string; e_start := Some (PyInt 0);
     e_end := Some (PyInt 20); e_bbox := None; e_words := None |}.

Definition inner_entity : entity :=
  {| e_entity := Some "PERSON"%string; e_start := Some (PyInt 5);
     e_end := Some (PyInt 10); e_bbox := None; e_words := None |}.

(** Three entities for a PDF: two on page 7, one without page number. *)
Definition paged_entities : list paged_entity :=
  [ {| pe_page_num := Some 7; pe_entity := ssn_entity |};
    {| pe_page_num := None; pe_entity := nine_entity |};
    {| pe_page_num := Some 7; pe_entity := bare_entity |} ].

(** A detector that reports the SSN of "SSN 123-45-6789 end" and nothing on
    any other text. *)
Definition digits_detector (text : str) : list entity :=
  if bool_decide (text = lit "SSN 123-45-6789 end") then [ssn_entity] else [].

(** A page as the OCR stage makes it, a blank page and a page whose OCR
    failed. *)
Definition scanned_page : ocr_page_result :=
  {| opr_status := Some "success"%string; opr_message := None;
     opr_text := Some (lit "SSN 123-45-6789 end");
     opr_words := Some [ word_at "SSN" 5 10 30 12; word_at "123-45-6789" 40 10 110 12;
                         word_at "end" 155 10 25 12 ] |}.

Definition scanned_pages : list ocr_page_result :=
  [ scanned_page;
    {| opr_status := Some "success"%string; opr_message := None;
       opr_text := Some (lit "  "); opr_words := Some [] |};
    {| opr_status := Some "error"%string; opr_message := Some "no image"%string;
       opr_text := Some []; opr_words := Some [] |} ].

(* ===================================================================== *)
(** * Part II: properties of the code                                    *)
(* ===================================================================== *)

(** ** Python primitives *)

Lemma len_nonneg {A} (l : list A) : 0 ≤ len l.
Proof. unfold len. lia. Qed.

Lemma len_app {A} (l k : list A) : len (l ++ k) = len l + len k.
Proof. unfold len. rewrite length_app. lia. Qed.

Lemma slice_index_inside n k : 0 ≤ k → k ≤ n → slice_index n k = Z.to_nat k.
Proof.
  intros H0 Hn. unfold slice_index.
  destruct (Z.ltb_spec k 0); [lia|]. f_equal. lia.
Qed.

Lemma slice_to_inside {A} (s : list A) k :
  0 ≤ k → k ≤ len s → slice_to s k = take (Z.to_nat k) s.
Proof. intros. unfold slice_to. by rewrite slice_index_inside. Qed.

Lemma slice_from_inside {A} (s : list A) k :
  0 ≤ k → k ≤ len s → slice_from s k = drop (Z.to_nat k) s.
Proof. intros. unfold slice_from. by rewrite slice_index_inside. Qed.

Lemma slice_inside {A} (s : list A) a b :
  0 ≤ a → a ≤ b → b ≤ len s →
  slice s a b = take (Z.to_nat b - Z.to_nat a) (drop (Z.to_nat a) s).
Proof.
  intros. unfold slice.
  rewrite slice_from_inside, !slice_index_inside by lia. done.
Qed.

(** [s[:a] + s[a:b] = s[:b]] *)
Lemma slice_to_slice {A} (s : list A) a b :
  0 ≤ a → a ≤ b → b ≤ len s → slice_to s a ++ slice s a b = slice_to s b.
Proof.
  intros. rewrite slice_inside, !slice_to_inside by lia.
  rewrite take_take_drop. f_equal. lia.
Qed.

Lemma slice_to_from {A} (s : list A) k : slice_to s k ++ slice_from s k = s.
Proof. apply take_drop. Qed.

(** Slicing a concatenation at the seam. *)
Lemma slice_to_app_seam {A} (l k : list A) a :
  0 ≤ a → a ≤ len l → slice_to (l ++ k) a = slice_to l a.
Proof.
  intros. rewrite !slice_to_inside by (rewrite ?len_app; pose proof (len_nonneg k); lia).
  apply take_app_le. unfold len in *. lia.
Qed.

Lemma slice_from_app_seam {A} (l k : list A) n :
  n = len l → slice_from (l ++ k) n = k.
Proof.
  intros ->.
  rewrite slice_from_inside
    by (rewrite ?len_app; pose proof (len_nonneg k); pose proof (len_nonneg l); lia).
  unfold len. rewrite Nat2Z.id. apply drop_app_length.
Qed.

Lemma len_slice_to {A} (s : list A) k : 0 ≤ k → k ≤ len s → len (slice_to s k) = k.
Proof.
  intros. rewrite slice_to_inside by done. unfold len in *.
  rewrite length_take. lia.
Qed.

(** *** Stable sorting *)

Section stable_sort_facts.
Context {A : Type} (before : A → A → bool).

Lemma insert_sorted_perm x s : insert_sorted before x s ≡ₚ x :: s.
Proof.
  induction s as [|y s IH]; simpl; [done|].
  destruct (before y x); [|done].
  rewrite IH. apply Permutation_swap.
Qed.

Lemma stable_sort_perm l : stable_sort before l ≡ₚ l.
Proof.
  induction l as [|x l IH]; simpl; [done|].
  by rewrite insert_sorted_perm, IH.
Qed.

(** Inserting into a list sorted for [R], where [before y x] decides
    [R y x] and its failure gives [R x y]. *)
Lemma insert_sorted_sorted (R : relation A) (P : A → Prop) x s :
  Transitive R →
  (∀ a b, P a → P b → before a b = true → R a b) →
  (∀ a b, P a → P b → before a b = false → R b a) →
  P x → Forall P s →
  StronglySorted R s → StronglySorted R (insert_sorted before x s).
Proof.
  intros HT Ht Hf Hx HP Hs.
  induction Hs as [|y s Hs IH Hy]; simpl.
  { repeat constructor. }
  apply Forall_cons in HP as [HPy HP].
  destruct (before y x) eqn:E.
  - constructor; [by apply IH|].
    rewrite insert_sorted_perm. constructor; [by apply Ht|done].
  - assert (R x y) by (by apply Hf).
    constructor; [by constructor|].
    constructor; [done|]. eapply Forall_impl; [exact Hy|].
    intros z Hz. by etrans.
Qed.

Lemma stable_sort_sorted (R : relation A) (P : A → Prop) l :
  Transitive R →
  (∀ a b, P a → P b → before a b = true → R a b) →
  (∀ a b, P a → P b → before a b = false → R b a) →
  Forall P l → StronglySorted R (stable_sort before l).
Proof.
  intros HT Ht Hf HP.
  induction HP as [|x l Hx HP IH]; simpl; [constructor|].
  apply (insert_sorted_sorted R P); try done.
  by rewrite stable_sort_perm.
Qed.
End stable_sort_facts.

Lemma StronglySorted_reverse {A} (R : relation A) l :
  StronglySorted R l → StronglySorted (flip R) (reverse l).
Proof.
  induction 1 as [|x l Hs IH Hx]; [constructor|].
  rewrite reverse_cons. apply StronglySorted_app_2; [|done|repeat constructor].
  intros a b Ha Hb. apply list_elem_of_singleton in Hb as ->.
  rewrite elem_of_reverse in Ha. rewrite Forall_forall in Hx. by apply Hx.
Qed.

Section sort_filter.
Context {A : Type} (key : A → Z) (P : A → Prop) `{!∀ x, Decision (P x)}.

Let before := λ y x : A, key x <? key y.




End sort_filter.



(** ** Text redaction *)

Lemma redact_loop_app t l k :
  redact_loop t (l ++ k) = redact_loop t l ≫= λ t', redact_loop t' k.
Proof.
  revert t. induction l as [|e l IH]; intros t; simpl; [done|].
  destruct (redact_entity t e); simpl; [apply IH|done].
Qed.

Lemma redact_entity_span t e s u :
  has_span e s u →
  redact_entity t e = Some (slice_to t s ++ redaction_marker e ++ slice_from t u).
Proof. intros [Hs Hu]. unfold redact_entity. by rewrite Hs, Hu. Qed.

Lemma redact_entity_skip t e : lacks_offset e → redact_entity t e = Some t.
Proof.
  unfold lacks_offset, redact_entity. intros [-> | ->]; [done|].
  by destruct (get_or_none (e_start e)).
Qed.

Lemma int_start_key e : int_start e → start_key e = PyInt (span_start e).
Proof.
  unfold int_start, start_key, span_start.
  destruct (e_start e) as [[]|]; simpl; done.
Qed.

Lemma valid_span_int_start text e : valid_span text e → int_start e.
Proof. intros (s & t & [Hs _] & _). unfold int_start. by rewrite Hs. Qed.

Lemma valid_span_bounds text e :
  valid_span text e →
  has_span e (span_start e) (span_end e) ∧
  0 ≤ span_start e ∧ span_start e < span_end e ∧ span_end e ≤ len text.
Proof.
  intros (s & t & [Hs Ht] & ?). unfold has_span, span_start, span_end.
  rewrite Hs, Ht. done.
Qed.

Lemma sortable_int_start es :
  Forall int_start es → sortable (start_key <$> es) = true.
Proof.
  intros H. unfold sortable.
  replace (forallb is_int (start_key <$> es)) with true; [by rewrite orb_true_r|].
  symmetry. apply forallb_forall. intros v Hv.
  apply list_elem_of_In, list_elem_of_fmap in Hv as (e & -> & He).
  rewrite Forall_forall in H. by rewrite (int_start_key e (H e He)).
Qed.

(** The processing order, when every start offset is an integer: a
    rearrangement of the entities by descending start offset. *)
Lemma sorted_entities_descending es :
  Forall int_start es →
  ∃ l, sorted_entities es = Some l ∧ l ≡ₚ es ∧
       StronglySorted (λ a b, span_start b ≤ span_start a) l.
Proof.
  intros H. eexists. unfold sorted_entities.
  rewrite (sortable_int_start es H). split; [done|].
  split; [apply stable_sort_perm|].
  apply (stable_sort_sorted _ _ int_start); [| | |done].
  - intros a b c ??. lia.
  - intros a b Ha Hb. rewrite (int_start_key a Ha), (int_start_key b Hb). simpl. lia.
  - intros a b Ha Hb. rewrite (int_start_key a Ha), (int_start_key b Hb). simpl. lia.
Qed.

(** Processing a left-to-right arrangement from its right end leaves the text
    in front of every span that is still to be processed untouched. *)
Lemma redact_loop_spliced text asc cur :
  Forall (valid_span text) asc →
  StronglySorted precedes asc →
  0 ≤ cur → cur ≤ len text →
  Forall (λ e, cur ≤ span_start e) asc →
  redact_loop text (reverse asc) = Some (slice_to text cur ++ spliced text cur asc).
Proof.
  intros Hv Hs. revert cur.
  induction Hs as [|e asc Hs IH He]; intros cur H0 Hn Hcur.
  { simpl. by rewrite slice_to_from. }
  apply Forall_cons in Hv as [Hve Hv]. apply Forall_cons in Hcur as [Hce _].
  destruct (valid_span_bounds _ _ Hve) as (Hspan & ? & ? & ?).
  rewrite reverse_cons, redact_loop_app.
  rewrite (IH Hv (span_end e)) by (done || lia). simpl.
  rewrite (redact_entity_span _ _ _ _ Hspan). f_equal.
  assert (len (slice_to text (span_end e)) = span_end e) as Hlen
    by (apply len_slice_to; lia).
  rewrite slice_to_app_seam, slice_from_app_seam by lia.
  rewrite (slice_to_inside (slice_to _ _)), (slice_to_inside text (span_end e)) by lia.
  rewrite take_take. replace (Z.to_nat (span_start e) `min` Z.to_nat (span_end e))%nat
    with (Z.to_nat (span_start e)) by lia.
  rewrite <-slice_to_inside by lia.
  rewrite <-(slice_to_slice text cur (span_start e)) by lia.
  simpl. by rewrite <-!app_assoc.
Qed.

(** A set of pairwise non-overlapping non-empty spans, read by descending
    start offset and reversed, is a left-to-right arrangement. *)
Lemma descending_disjoint_arrangement text l :
  Forall (valid_span text) l → NoDup l →
  (∀ a b, a ∈ l → b ∈ l → a ≠ b → disjoint_spans a b) →
  StronglySorted (λ a b, span_start b ≤ span_start a) l →
  StronglySorted precedes (reverse l).
Proof.
  intros Hv Hnd Hdis Hs.
  apply (StronglySorted_reverse (flip precedes)).
  induction Hs as [|x l Hs IH Hx]; [constructor|].
  apply Forall_cons in Hv as [Hvx Hv]. apply NoDup_cons in Hnd as [Hx' Hnd].
  constructor.
  { apply IH; [done..|]. intros a b Ha Hb. apply Hdis; by right. }
  rewrite Forall_forall in Hx, Hv. apply Forall_forall. intros y Hy.
  unfold flip, precedes.
  destruct (Hdis x y) as [Hp|Hp]; [by left|by right|by intros ->| |done].
  unfold precedes in Hp.
  destruct (valid_span_bounds _ _ Hvx) as (_ & ? & ? & ?).
  destruct (valid_span_bounds _ _ (Hv y Hy)) as (_ & ? & ? & ?).
  specialize (Hx y Hy). lia.
Qed.

(** C1: text redaction handles the entities by descending start offset and
    puts the marker [[REDACTED_<type>]] in place of every span
    [[start, end)].  On the text "SSN 123-45-6789 end" with the entity
    (4, 15, SSN) the result is "SSN [REDACTED_SSN] end"; and for pairwise
    non-overlapping entities with valid offsets the processing order is the
    reverse of their left-to-right arrangement [asc], and the result is the
    original text with every span of [asc] replaced by its marker and every
    other character kept. *)
Theorem redact_text_descending_splice :
  redact_text_entities (lit "SSN 123-45-6789 end") [ssn_entity]
    = lit "SSN [REDACTED_SSN] end" ∧
  (∀ (text : str) (es : list entity),
     Forall int_start es →
     ∃ l, l ≡ₚ es ∧ StronglySorted (λ a b, span_start b ≤ span_start a) l ∧
          redact_text_try text es = redact_loop text l) ∧
  (∀ (t : str) (e : entity) (s u : Z),
     has_span e s u →
     redact_entity t e = Some (slice_to t s ++ redaction_marker e ++ slice_from t u)) ∧
  ∀ (text : str) (es : list entity),
    Forall (valid_span text) es →
    NoDup es →
    (∀ a b, a ∈ es → b ∈ es → a ≠ b → disjoint_spans a b) →
    ∃ asc, asc ≡ₚ es ∧ StronglySorted precedes asc ∧
           sorted_entities es = Some (reverse asc) ∧
           redact_text_entities text es = spliced text 0 asc.
Proof.
  split; [reflexivity|]. split; [|split; [apply redact_entity_span|]].
  { intros text es H. destruct (sorted_entities_descending es H) as (l & Hl & Hperm & Hs).
    exists l. split; [done|]. split; [done|]. unfold redact_text_try. by rewrite Hl. }
  intros text es Hv Hnd Hdis.
  destruct (sorted_entities_descending es) as (l & Hl & Hperm & Hs).
  { eapply Forall_impl; [exact Hv|]. apply valid_span_int_start. }
  assert (StronglySorted precedes (reverse l)) as Hasc.
  { apply (descending_disjoint_arrangement text); [by rewrite Hperm|by rewrite Hperm| |done].
    intros a b. rewrite !Hperm. apply Hdis. }
  assert (Forall (valid_span text) (reverse l)) as Hvl
    by (by rewrite reverse_Permutation, Hperm).
  exists (reverse l). split; [by rewrite reverse_Permutation|].
  split; [done|]. rewrite reverse_involutive. split; [done|].
  unfold redact_text_entities, redact_text_try. rewrite Hl. simpl.
  rewrite <-(reverse_involutive l) at 1.
  rewrite (redact_loop_spliced text (reverse l) 0).
  - by rewrite slice_to_inside by (pose proof (len_nonneg text); lia).
  - done.
  - done.
  - lia.
  - apply len_nonneg.
  - eapply Forall_impl; [exact Hvl|]. intros e He.
    by destruct (valid_span_bounds _ _ He) as (_ & ? & _).
Qed.

Lemma redact_text_descending_splice_witness :
  ∃ asc, asc ≡ₚ [ssn_entity; nine_entity] ∧ StronglySorted precedes asc ∧
         sorted_entities [ssn_entity; nine_entity] = Some (reverse asc) ∧
         redact_text_entities (lit "SSN 123-45-6789 end") [ssn_entity; nine_entity]
           = spliced (lit "SSN 123-45-6789 end") 0 asc.
Proof.
  apply (proj2 (proj2 (proj2 redact_text_descending_splice))).
  - repeat constructor.
    + exists 4, 15. unfold has_span, len. simpl. repeat split; lia.
    + exists 0, 3. unfold has_span, len. simpl. repeat split; lia.
  - apply NoDup_cons. split; [|apply NoDup_singleton].
    intros H. apply list_elem_of_singleton in H. discriminate H.
  - intros a b Ha Hb Hab. unfold disjoint_spans, precedes.
    rewrite elem_of_cons, list_elem_of_singleton in Ha, Hb.
    destruct Ha as [->| ->], Hb as [->| ->]; try done; unfold span_end, span_start; simpl; lia.
Defined.





(** ** The character-to-word mapper *)

Lemma starts_with_spec sub text :
  starts_with sub text = true ↔ take (length sub) text = sub ∧ (length sub ≤ length text)%nat.
Proof.
  revert text. induction sub as [|c sub IH]; intros [|d text]; simpl.
  - split; [split; [done|lia]|done].
  - split; [split; [done|lia]|done].
  - split; [done|]. intros [? ?]. lia.
  - rewrite andb_true_iff, bool_decide_eq_true, IH. split.
    + intros (-> & -> & ?). split; [done|lia].
    + intros [[= -> ->] ?]. repeat split; try done. lia.
Qed.

Lemma first_occurrence_spec sub text k :
  first_occurrence sub text = Some k →
  (k ≤ length text)%nat ∧
  starts_with sub (drop k text) = true ∧
  ∀ j, (j < k)%nat → starts_with sub (drop j text) = false.
Proof.
  revert k. induction text as [|d text IH]; intros k; simpl.
  - destruct (starts_with sub []) eqn:E; [|done]. intros [= <-].
    split; [done|]. split; [done|lia].
  - destruct (starts_with sub (d :: text)) eqn:E.
    + intros [= <-]. split; [lia|]. split; [done|lia].
    + destruct (first_occurrence sub text) as [k'|] eqn:E'; [|done].
      intros [= <-]. destruct (IH k' eq_refl) as (H0 & H1 & H2).
      split; [lia|]. split; [done|].
      intros [|j] ?; [done|]. apply H2. lia.
Qed.

(** A successful search: the position is at or after the cursor, the word
    lies inside the text there, and no earlier position from the cursor on
    holds it. *)
Lemma py_find_found text sub start p :
  py_find text sub start = p → p ≠ -1 →
  start ≤ p ∧ 0 ≤ p ∧ p + len sub ≤ len text ∧
  slice text p (p + len sub) = sub ∧
  ∀ q, 0 ≤ start → start ≤ q → q < p → slice text q (q + len sub) ≠ sub ∨ len text < q + len sub.
Proof.
  unfold py_find. destruct (Z.ltb_spec (len text) start) as [|Hs]; [by intros <-|].
  destruct (first_occurrence _ _) as [k|] eqn:E; [|by intros <-].
  intros <- _. apply first_occurrence_spec in E as (Hk & E & Hmin).
  rewrite length_drop in Hk.
  apply starts_with_spec in E as [E Hlen]. rewrite !length_drop in Hlen.
  set (i := slice_index (len text) start) in *.
  assert (Z.of_nat i = Z.max start 0 ∨ (start < 0 ∧ Z.of_nat i = Z.max (start + len text) 0)) as Hi.
  { unfold i, slice_index. pose proof (len_nonneg text).
    destruct (Z.ltb_spec start 0); [right|left]; lia. }
  assert (Z.of_nat i ≤ len text) as Hi'.
  { unfold i, slice_index. pose proof (len_nonneg text).
    destruct (Z.ltb_spec start 0); lia. }
  unfold len in *.
  split; [lia|]. split; [lia|]. split; [lia|]. split.
  - rewrite slice_inside by (unfold len; lia).
    rewrite drop_drop in E. rewrite Nat2Z.id.
    replace (Z.to_nat (Z.of_nat (i + k) + Z.of_nat (length sub)) - (i + k))%nat
      with (length sub) by lia. done.
  - intros q Hs0 Hq Hqp.
    destruct (decide (Z.of_nat (length text) < q + Z.of_nat (length sub))) as [|Hfit];
      [by right|left].
    assert (∃ j, q = Z.of_nat (i + j) ∧ (j < k)%nat) as (j & -> & Hj).
    { exists (Z.to_nat q - i)%nat. lia. }
    specialize (Hmin j Hj). intros Heq.
    rewrite slice_inside in Heq by (unfold len; lia).
    rewrite Nat2Z.id in Heq.
    replace (Z.to_nat (Z.of_nat (i + j) + Z.of_nat (length sub)) - (i + j))%nat
      with (length sub) in Heq by lia.
    assert (starts_with sub (drop j (drop i text)) = true) as Hc; [|congruence].
    apply starts_with_spec. rewrite drop_drop. split; [done|].
    rewrite length_drop. lia.
Qed.

Lemma foldl_insert_lookup (i : nat) (l : list Z) (m : gmap Z nat) (k : Z) :
  foldl (λ m j, <[j := i]> m) m l !! k
  = if decide (k ∈ l) then Some i else m !! k.
Proof.
  revert m. induction l as [|j l IH]; intros m; simpl.
  - destruct (decide (k ∈ [])) as [H|]; [by apply elem_of_nil in H|done].
  - rewrite IH. destruct (decide (k ∈ l)) as [H|H].
    + rewrite decide_True by (by right). done.
    + destruct (decide (j = k)) as [->|Hne].
      * rewrite lookup_insert_eq, decide_True by (by left). done.
      * rewrite lookup_insert_ne by done.
        rewrite decide_False; [done|]. intros [->|?]%elem_of_cons; done.
Qed.

Lemma map_chars_lookup m a b i k :
  map_chars m a b i !! k = if decide (a ≤ k < b) then Some i else m !! k.
Proof.
  unfold map_chars, py_range. rewrite foldl_insert_lookup.
  destruct (decide (k ∈ seqZ a (b - a))) as [H|H];
    rewrite elem_of_seqZ in H; destruct (decide (a ≤ k < b)); try done; lia.
Qed.

Lemma enumerate_snoc {A} (l : list A) x :
  enumerate (l ++ [x]) = enumerate l ++ [(length l, x)].
Proof.
  unfold enumerate. rewrite length_app. simpl.
  rewrite seq_app. simpl. rewrite zip_with_app by (by rewrite length_seq). done.
Qed.

Lemma map_words_snoc text words w :
  map_words text (words ++ [w]) = map_word text (map_words text words) (length words, w).
Proof. unfold map_words. by rewrite enumerate_snoc, foldl_app. Qed.

Lemma cursor_at_0 text words : cursor_at text words 0 = 0.
Proof. done. Qed.

Lemma cursor_at_S text words i w :
  words !! i = Some w →
  map_words text (take (S i) words) = map_word text (map_words text (take i words)) (i, w).
Proof.
  intros H. rewrite (take_S_r _ _ _ H), map_words_snoc. do 2 f_equal.
  rewrite length_take. apply lookup_lt_Some in H. lia.
Qed.

Lemma map_word_found text m c i w p :
  word_text w ≠ [] → py_find text (word_text w) c = p → p ≠ -1 →
  map_word text (m, c) (i, w)
  = (map_chars m p (p + len (word_text w)) i, p + len (word_text w)).
Proof.
  intros Hw <- Hp. unfold map_word.
  rewrite bool_decide_false by done. by rewrite bool_decide_true by done.
Qed.

Lemma map_word_skip text st i w :
  word_text w = [] ∨ py_find text (word_text w) st.2 = -1 →
  map_word text st (i, w) = st.
Proof.
  destruct st as [m c]. simpl. intros H. unfold map_word.
  destruct (bool_decide_reflect (word_text w = [])); [done|].
  destruct H as [?|H]; [done|]. rewrite H. by rewrite bool_decide_false by (by intros ?).
Qed.

Lemma found_at_lt text words i w p : found_at text words i w p → (i < length words)%nat.
Proof. intros [H _]. by apply lookup_lt_Some in H. Qed.

Lemma found_at_fun text words i w p w' p' :
  found_at text words i w p → found_at text words i w' p' → w = w' ∧ p = p'.
Proof. intros (H1 & _ & H2 & _) (H1' & _ & H2' & _). by simplify_eq. Qed.

Lemma cursor_at_app text words w i :
  (i ≤ length words)%nat → cursor_at text (words ++ [w]) i = cursor_at text words i.
Proof. intros. unfold cursor_at. by rewrite take_app_le. Qed.

Lemma cursor_at_all text words : cursor_at text words (length words) = (map_words text words).2.
Proof. unfold cursor_at. by rewrite take_ge. Qed.

Lemma found_at_app text words w0 i w p :
  (i < length words)%nat →
  found_at text (words ++ [w0]) i w p ↔ found_at text words i w p.
Proof.
  intros. unfold found_at. by rewrite lookup_app_l, cursor_at_app by lia.
Qed.

Lemma found_at_last text words w0 w p :
  found_at text (words ++ [w0]) (length words) w p ↔
  w = w0 ∧ word_text w0 ≠ [] ∧
  py_find text (word_text w0) (map_words text words).2 = p ∧ p ≠ -1.
Proof.
  unfold found_at. rewrite cursor_at_app, cursor_at_all by lia.
  rewrite list_lookup_middle by done. split.
  - by intros ([= <-] & ? & ? & ?).
  - by intros (-> & ? & ? & ?).
Qed.

(** The invariant of the loop: the cursor stays inside the text, every key
    of the dictionary lies in front of the cursor, and the dictionary holds
    exactly the intervals of the words found so far. *)
Lemma map_words_invariant text words :
  0 ≤ (map_words text words).2 ≤ len text ∧
  (∀ k v, (map_words text words).1 !! k = Some v → 0 ≤ k < (map_words text words).2) ∧
  (∀ k i, (map_words text words).1 !! k = Some i ↔
          ∃ w p, found_at text words i w p ∧ p ≤ k < p + len (word_text w)).
Proof.
  induction words as [|w0 words IH] using rev_ind.
  { split; [simpl; pose proof (len_nonneg text); lia|]. split.
    - intros k v. simpl. by rewrite lookup_empty.
    - intros k i. simpl. rewrite lookup_empty. split; [done|].
      intros (w & p & [H _] & _). done. }
  destruct IH as (I1 & I2 & I3).
  rewrite map_words_snoc.
  destruct (map_words text words) as [m c] eqn:Est. simpl in I1, I2, I3.
  destruct (decide (word_text w0 = [] ∨ py_find text (word_text w0) c = -1)) as [Hskip|Hfound].
  - rewrite (map_word_skip text (m, c)) by done. simpl.
    split; [done|]. split; [done|]. intros k i. rewrite I3. split.
    + intros (w & p & Hf & ?). exists w, p. split; [|done].
      apply found_at_app; [by eapply found_at_lt|done].
    + intros (w & p & Hf & ?). exists w, p. split; [|done].
      pose proof (found_at_lt _ _ _ _ _ Hf) as Hlt. rewrite length_app in Hlt. simpl in Hlt.
      destruct (decide (i = length words)) as [->|].
      * apply found_at_last in Hf as (_ & ? & Hp & ?). rewrite Est in Hp. simpl in Hp.
        destruct Hskip; [done|congruence].
      * apply (proj1 (found_at_app text words w0 i w p ltac:(lia)) Hf).
  - apply Decidable.not_or in Hfound as [Hw Hp]. pose proof (len_nonneg (word_text w0)) as HL.
    rewrite (map_word_found text m c _ w0 _ Hw eq_refl Hp).
    destruct (py_find_found _ _ _ _ eq_refl Hp) as (Hc & Hp0 & Hfit & _).
    set (p0 := py_find text (word_text w0) c) in *. simpl.
    split; [lia|]. split.
    + intros k v. rewrite map_chars_lookup. destruct (decide _); [lia|].
      intros Hk. apply I2 in Hk. lia.
    + intros k i. rewrite map_chars_lookup. destruct (decide _) as [Hin|Hout]; split.
      * intros [= <-]. exists w0, p0. split; [|done].
        apply found_at_last. rewrite Est. done.
      * intros (w & p & Hf & Hk).
        pose proof (found_at_lt _ _ _ _ _ Hf) as Hlt. rewrite length_app in Hlt. simpl in Hlt.
        destruct (decide (i = length words)) as [->|]; [done|].
        assert (found_at text words i w p) as Hf'
          by (apply (found_at_app text words w0); [lia|done]).
        assert (m !! k = Some i) as Hm by (apply I3; eauto).
        apply I2 in Hm. lia.
      * intros Hm. apply I3 in Hm as (w & p & Hf & ?). exists w, p. split; [|done].
        apply found_at_app; [by eapply found_at_lt|done].
      * intros (w & p & Hf & Hk).
        pose proof (found_at_lt _ _ _ _ _ Hf) as Hlt. rewrite length_app in Hlt. simpl in Hlt.
        destruct (decide (i = length words)) as [->|].
        -- apply found_at_last in Hf as (-> & _ & Hp' & _). rewrite Est in Hp'. simpl in Hp'.
           fold p0 in Hp'. subst p. lia.
        -- assert (found_at text words i w p) as Hf'
             by (apply (found_at_app text words w0); [lia|done]).
           apply I3; eauto.
Qed.

(** The dictionary, key by key. *)
Lemma char_to_word_map_lookup text words k i :
  _create_char_to_word_map text words !! k = Some i ↔
  ∃ w p, found_at text words i w p ∧ p ≤ k < p + len (word_text w).
Proof. apply map_words_invariant. Qed.

(** The cursor behind the word of index [i]. *)
Lemma cursor_at_found text words i w p :
  found_at text words i w p →
  cursor_at text words i ≤ p ∧ cursor_at text words (S i) = p + len (word_text w).
Proof.
  intros (Hi & Hw & Hp & Hne). split.
  - by destruct (py_find_found _ _ _ _ Hp Hne) as (? & _).
  - unfold cursor_at at 1. rewrite (cursor_at_S _ _ _ _ Hi).
    destruct (map_words text (take i words)) as [m c] eqn:E.
    unfold cursor_at in Hp. rewrite E in Hp. simpl in Hp.
    by rewrite (map_word_found text m c i w p).
Qed.

Lemma cursor_at_not_found text words i w :
  words !! i = Some w → (¬ ∃ p, found_at text words i w p) →
  cursor_at text words (S i) = cursor_at text words i.
Proof.
  intros Hi Hnf. unfold cursor_at at 1. rewrite (cursor_at_S _ _ _ _ Hi).
  rewrite map_word_skip; [done|].
  destruct (decide (word_text w = [])) as [|Hw]; [by left|right].
  destruct (decide (py_find text (word_text w) (map_words text (take i words)).2 = -1))
    as [|Hp]; [done|].
  destruct Hnf. eexists. split; [done|]. split; [done|]. split; [reflexivity|done].
Qed.

(** C4: the cursor of the character-to-word mapper starts at 0.  A word
    found by the forward search, at a position [p] at or after the cursor,
    gets every offset of [[p, p + len(word))] mapped to its index and moves
    the cursor to [p + len(word)]; a word that is not found gets no entry and
    leaves the cursor where it is; an offset covered by no found word is
    absent from the mapping.  For "Hello World" with the words "Hello" and
    "World" the offsets 0-4 map to word 0, 6-10 to word 1, 5 is unmapped. *)
Theorem char_to_word_map_cursor (text : str) (words : list word) :
  cursor_at text words 0 = 0 ∧
  (∀ i w p, found_at text words i w p →
     cursor_at text words i ≤ p ∧
     slice text p (p + len (word_text w)) = word_text w ∧
     cursor_at text words (S i) = p + len (word_text w) ∧
     ∀ k, p ≤ k < p + len (word_text w) →
          _create_char_to_word_map text words !! k = Some i) ∧
  (∀ i w, words !! i = Some w → (¬ ∃ p, found_at text words i w p) →
     cursor_at text words (S i) = cursor_at text words i ∧
     ∀ k, _create_char_to_word_map text words !! k ≠ Some i) ∧
  (∀ k, (¬ ∃ i w p, found_at text words i w p ∧ p ≤ k < p + len (word_text w)) →
     _create_char_to_word_map text words !! k = None) ∧
  ((∀ k, 0 ≤ k ≤ 4 →
      _create_char_to_word_map (lit "Hello World") hello_world !! k = Some 0%nat) ∧
   (∀ k, 6 ≤ k ≤ 10 →
      _create_char_to_word_map (lit "Hello World") hello_world !! k = Some 1%nat) ∧
   _create_char_to_word_map (lit "Hello World") hello_world !! 5 = None).
Proof.
  split; [done|]. split; [|split; [|split]].
  - intros i w p Hf. destruct (cursor_at_found _ _ _ _ _ Hf) as [H1 H2].
    split; [done|]. split.
    { destruct Hf as (_ & _ & Hp & Hne).
      by destruct (py_find_found _ _ _ _ Hp Hne) as (_ & _ & _ & ? & _). }
    split; [done|]. intros k Hk.
    apply char_to_word_map_lookup. eauto.
  - intros i w Hi Hnf. split; [by apply (cursor_at_not_found text words i w)|].
    intros k Hk. apply char_to_word_map_lookup in Hk as (w' & p & Hf & _).
    apply Hnf. exists p. destruct Hf as (Hi' & ?). by simplify_eq.
  - intros k Hk. destruct (_ !! k) as [i|] eqn:E; [|done].
    destruct Hk. apply char_to_word_map_lookup in E as (w & p & ? & ?). eauto.
  - split; [|split; [|reflexivity]].
    + intros k Hk.
      assert (k = 0 ∨ k = 1 ∨ k = 2 ∨ k = 3 ∨ k = 4) as Hc by lia.
      destruct Hc as [->|[->|[->|[->| ->]]]]; reflexivity.
    + intros k Hk.
      assert (k = 6 ∨ k = 7 ∨ k = 8 ∨ k = 9 ∨ k = 10) as Hc by lia.
      destruct Hc as [->|[->|[->|[->| ->]]]]; reflexivity.
Qed.

Lemma char_to_word_map_cursor_witness :
  cursor_at (lit "Hello World") hello_world 1 ≤ 6 ∧
  cursor_at (lit "Hello World") hello_world 2 = 11 ∧
  _create_char_to_word_map (lit "Hello World") hello_world !! 8 = Some 1%nat.
Proof.
  destruct (char_to_word_map_cursor (lit "Hello World") hello_world) as (_ & H & _).
  destruct (H 1%nat {| w_word := Some (lit "World"); w_bbox := Some [70; 20; 55; 12] |} 6)
    as (H1 & _ & H2 & H3).
  - repeat split; try reflexivity; by vm_compute.
  - split; [exact H1|]. split; [exact H2|]. apply H3. unfold len. simpl. lia.
Defined.

(** C9: the mapping only holds valid word indices, and the offsets mapped to
    an index [v] are exactly one interval [[p, p + len(word_v))] of the text
    on which the text reads as the word [v]. *)
Theorem char_to_word_map_intervals (text : str) (words : list word) :
  (∀ k v, _create_char_to_word_map text words !! k = Some v → (v < length words)%nat) ∧
  (∀ k0 v, _create_char_to_word_map text words !! k0 = Some v →
     ∃ w p, words !! v = Some w ∧
            (∀ k, _create_char_to_word_map text words !! k = Some v
                  ↔ p ≤ k < p + len (word_text w)) ∧
            0 ≤ p ∧ p + len (word_text w) ≤ len text ∧
            slice text p (p + len (word_text w)) = word_text w).
Proof.
  split.
  - intros k v Hk. apply char_to_word_map_lookup in Hk as (w & p & Hf & _).
    by eapply found_at_lt.
  - intros k0 v Hk0. apply char_to_word_map_lookup in Hk0 as (w & p & Hf & Hk0).
    exists w, p. split; [by destruct Hf|]. split.
    + intros k. rewrite char_to_word_map_lookup. split.
      * intros (w' & p' & Hf' & ?). by destruct (found_at_fun _ _ _ _ _ _ _ Hf Hf') as [-> ->].
      * intros. eauto.
    + destruct Hf as (_ & _ & Hp & Hne).
      by destruct (py_find_found _ _ _ _ Hp Hne) as (_ & ? & ? & ? & _).
Qed.

Lemma char_to_word_map_intervals_witness :
  (1 < length hello_world)%nat ∧
  ∃ w p, hello_world !! 1%nat = Some w ∧
         (∀ k, _create_char_to_word_map (lit "Hello World") hello_world !! k = Some 1%nat
               ↔ p ≤ k < p + len (word_text w)) ∧
         0 ≤ p ∧ p + len (word_text w) ≤ len (lit "Hello World") ∧
         slice (lit "Hello World") p (p + len (word_text w)) = word_text w.
Proof.
  destruct (char_to_word_map_intervals (lit "Hello World") hello_world) as [H1 H2].
  split.
  - apply (H1 8). reflexivity.
  - apply (H2 8). reflexivity.
Defined.

(** ** The entity-to-geometry mapper *)

Lemma word_indices_spec m a b i : i ∈ word_indices m a b ↔ referenced m a b i.
Proof.
  unfold word_indices, referenced, py_range.
  assert (∀ (l : list Z) (s : gset nat),
            i ∈ foldl (λ s k, match m !! k with Some j => {[j]} ∪ s | None => s end) s l
            ↔ i ∈ s ∨ ∃ k, k ∈ l ∧ m !! k = Some i) as H.
  { induction l as [|k l IH]; intros s; simpl.
    - split; [by left|]. intros [?|(k & Hk & _)]; [done|by apply elem_of_nil in Hk].
    - rewrite IH. split.
      + intros [Hi|(k' & ? & ?)].
        * destruct (m !! k) as [j|] eqn:E; [|by left].
          apply elem_of_union in Hi as [Hi|Hi]; [|by left].
          apply elem_of_singleton in Hi as ->. right. exists k. split; [by left|done].
        * right. exists k'. split; [by right|done].
      + intros [Hi|(k' & Hk' & Hm)].
        * left. destruct (m !! k); [|done]. apply elem_of_union. by right.
        * apply elem_of_cons in Hk' as [->|Hk'].
          -- left. rewrite Hm. apply elem_of_union. left. by apply elem_of_singleton.
          -- right. eauto. }
  rewrite H. split.
  - intros [Hi|(k & Hk & ?)]; [by apply not_elem_of_empty in Hi|].
    apply elem_of_seqZ in Hk. exists k. split; [lia|done].
  - intros (k & Hk & ?). right. exists k. split; [|done]. apply elem_of_seqZ. lia.
Qed.

Lemma StronglySorted_le_lt (l : list nat) :
  StronglySorted le l → NoDup l → StronglySorted lt l.
Proof.
  induction 1 as [|x l Hs IH Hx]; intros Hnd; [constructor|].
  apply NoDup_cons in Hnd as [Hx' Hnd]. constructor; [by apply IH|].
  rewrite Forall_forall in Hx. apply Forall_forall. intros y Hy.
  specialize (Hx y Hy). assert (x ≠ y) by (by intros ->). lia.
Qed.

(** The indices in the order of the second loop. *)
Lemma sorted_word_indices m a b :
  StronglySorted lt (merge_sort le (elements (word_indices m a b))) ∧
  ∀ i, i ∈ merge_sort le (elements (word_indices m a b)) ↔ referenced m a b i.
Proof.
  split.
  - apply StronglySorted_le_lt; [apply (StronglySorted_merge_sort le)|].
    rewrite merge_sort_Permutation. apply NoDup_elements.
  - intros i. by rewrite merge_sort_Permutation, elem_of_elements, word_indices_spec.
Qed.

Lemma add_word_box_boxed words acc i w0 x y w h :
  words !! i = Some w0 → bbox4 (w_bbox w0) = Some (x, y, w, h) →
  add_word_box words acc i
  = {| min_x := Fin (bound_min (min_x acc) x); min_y := Fin (bound_min (min_y acc) y);
       max_x := Z.max (max_x acc) (x + w); max_y := Z.max (max_y acc) (y + h);
       entity_words := entity_words acc ++ [word_text w0] |}.
Proof. intros Hi Hb. unfold add_word_box. by rewrite Hi, Hb. Qed.

(** The accumulators after the loop over the indices [l] whose words all
    carry a box in pixel units. *)
Lemma fold_word_boxes words l :
  Forall (λ i, ∃ bx, word_box words i = Some bx ∧ pixel_box bx) l →
  let acc := foldl (add_word_box words) box_acc_init l in
  entity_words acc = texts_of words l ∧
  (l ≠ [] →
   ∃ X Y, min_x acc = Fin X ∧ min_y acc = Fin Y ∧
     (∀ i bx, i ∈ l → word_box words i = Some bx →
              covers (X, Y, max_x acc - X, max_y acc - Y) bx) ∧
     (∃ i x y w h, i ∈ l ∧ word_box words i = Some (x, y, w, h) ∧ x = X) ∧
     (∃ i x y w h, i ∈ l ∧ word_box words i = Some (x, y, w, h) ∧ y = Y) ∧
     (∃ i x y w h, i ∈ l ∧ word_box words i = Some (x, y, w, h) ∧ x + w = max_x acc) ∧
     (∃ i x y w h, i ∈ l ∧ word_box words i = Some (x, y, w, h) ∧ y + h = max_y acc)).
Proof.
  induction l as [|i l IH] using rev_ind; intros Hall acc.
  { split; [done|]. by intros []. }
  apply Forall_app in Hall as [Hall Hi]. apply Forall_singleton in Hi as (bx & Hbx & Hpx).
  destruct (IH Hall) as [IHw IHb]. clear IH. subst acc.
  unfold word_box in Hbx. destruct (words !! i) as [w0|] eqn:Hw0; [|done]. simpl in Hbx.
  destruct bx as [[[x y] w] h]. simpl in Hpx.
  rewrite foldl_app. simpl. rewrite (add_word_box_boxed _ _ _ _ _ _ _ _ Hw0 Hbx).
  set (acc := foldl (add_word_box words) box_acc_init l) in *. simpl.
  split.
  { rewrite IHw. unfold texts_of. rewrite omap_app. simpl. by rewrite Hw0. }
  intros _.
  assert (word_box words i = Some (x, y, w, h)) as Hbi
    by (unfold word_box; rewrite Hw0; done).
  destruct (decide (l = [])) as [->|Hne].
  - subst acc. simpl. exists x, y. split; [done|]. split; [done|].
    replace (Z.max 0 (x + w)) with (x + w) by lia.
    replace (Z.max 0 (y + h)) with (y + h) by lia.
    split; [|repeat split; exists i, x, y, w, h; (split; [by left|done])].
    intros j bx Hj Hbj.
    apply list_elem_of_singleton in Hj as ->. rewrite Hbi in Hbj. injection Hbj as <-.
    simpl. lia.
  - destruct (IHb Hne) as (X & Y & HX & HY & Hcov & (ix & Hix) & (iy & Hiy) & (jx & Hjx) & (jy & Hjy)).
    rewrite HX, HY. simpl. exists (Z.min X x), (Z.min Y y).
    split; [done|]. split; [done|]. split; [|split; [|split; [|split]]].
    + intros j bx Hj Hbj. apply elem_of_app in Hj as [Hj|Hj].
      * specialize (Hcov j bx Hj Hbj). destruct bx as [[[x' y'] w'] h']. simpl in *. lia.
      * apply list_elem_of_singleton in Hj as ->. rewrite Hbi in Hbj. injection Hbj as <-.
        simpl. lia.
    + destruct (Z.min_spec X x) as [[? ->]|[? ->]].
      * destruct Hix as (x0 & y0 & w1 & h0 & ? & ? & ?).
        exists ix, x0, y0, w1, h0. split; [apply elem_of_app; by left|done].
      * exists i, x, y, w, h. split; [apply elem_of_app; right; by apply list_elem_of_singleton|done].
    + destruct (Z.min_spec Y y) as [[? ->]|[? ->]].
      * destruct Hiy as (x0 & y0 & w1 & h0 & ? & ? & ?).
        exists iy, x0, y0, w1, h0. split; [apply elem_of_app; by left|done].
      * exists i, x, y, w, h. split; [apply elem_of_app; right; by apply list_elem_of_singleton|done].
    + destruct (Z.max_spec (max_x acc) (x + w)) as [[? ->]|[? ->]].
      * exists i, x, y, w, h. split; [apply elem_of_app; right; by apply list_elem_of_singleton|done].
      * destruct Hjx as (x0 & y0 & w1 & h0 & ? & ? & ?).
        exists jx, x0, y0, w1, h0. split; [apply elem_of_app; by left|done].
    + destruct (Z.max_spec (max_y acc) (y + h)) as [[? ->]|[? ->]].
      * exists i, x, y, w, h. split; [apply elem_of_app; right; by apply list_elem_of_singleton|done].
      * destruct Hjy as (x0 & y0 & w1 & h0 & ? & ? & ?).
        exists jy, x0, y0, w1, h0. split; [apply elem_of_app; by left|done].
Qed.

Lemma map_entity_to_words_unfold e m words a b :
  e_start e = Some (PyInt a) → e_end e = Some (PyInt b) →
  _map_entity_to_words e m words
  = if bool_decide (word_indices m a b = ∅) then Some e
    else
      let acc := foldl (add_word_box words) box_acc_init
                   (merge_sort le (elements (word_indices m a b))) in
      match min_x acc, min_y acc with
      | Fin X, Fin Y =>
          Some (set_geometry e [X; Y; max_x acc - X; max_y acc - Y] (entity_words acc))
      | _, _ => Some e
      end.
Proof. intros Ha Hb. unfold _map_entity_to_words. by rewrite Ha, Hb. Qed.

(** C5: the mapping collects the distinct word indices referenced by the
    offsets of [[start, end)] that are present in the character-to-word map.
    With no index referenced the entity is returned as it is, without box and
    words.  Otherwise (the referenced words carrying their box, in pixel
    units) the entity gets the union box of the referenced words, the minimal
    box covering all of them, and their texts in ascending index order.  An
    entity whose span maps to word 0 only gets the box of word 0. *)
Theorem map_entity_to_words_geometry
    (e : entity) (m : gmap Z nat) (words : list word) (a b : Z) :
  e_start e = Some (PyInt a) → e_end e = Some (PyInt b) →
  ((∀ i, ¬ referenced m a b i) → _map_entity_to_words e m words = Some e) ∧
  ((∃ i, referenced m a b i) →
   (∀ i, referenced m a b i → ∃ bx, word_box words i = Some bx ∧ pixel_box bx) →
   ∃ idxs X Y W H,
     StronglySorted lt idxs ∧ (∀ i, i ∈ idxs ↔ referenced m a b i) ∧
     _map_entity_to_words e m words
       = Some (set_geometry e [X; Y; W; H] (texts_of words idxs)) ∧
     (∀ i bx, i ∈ idxs → word_box words i = Some bx → covers (X, Y, W, H) bx) ∧
     (∀ B, (∀ i bx, i ∈ idxs → word_box words i = Some bx → covers B bx) →
           covers B (X, Y, W, H))) ∧
  (∀ w0 x y w h,
     (∀ i, referenced m a b i ↔ i = 0%nat) →
     words !! 0%nat = Some w0 → bbox4 (w_bbox w0) = Some (x, y, w, h) →
     pixel_box (x, y, w, h) →
     _map_entity_to_words e m words = Some (set_geometry e [x; y; w; h] [word_text w0])).
Proof.
  intros Ha Hb. rewrite (map_entity_to_words_unfold e m words a b Ha Hb).
  split; [|split].
  - intros Hnone. rewrite bool_decide_true; [done|].
    apply set_eq. intros i. rewrite word_indices_spec. split; [by intros ?%Hnone|].
    by intros ?%not_elem_of_empty.
  - intros [i0 Hi0] Hboxes.
    destruct (sorted_word_indices m a b) as [Hsorted Hmem].
    set (idxs := merge_sort le (elements (word_indices m a b))) in *.
    rewrite bool_decide_false.
    2: { intros Hempty. apply word_indices_spec in Hi0. rewrite Hempty in Hi0.
         by apply not_elem_of_empty in Hi0. }
    assert (idxs ≠ []) as Hne.
    { intros Hnil. apply Hmem in Hi0. rewrite Hnil in Hi0. by apply elem_of_nil in Hi0. }
    destruct (fold_word_boxes words idxs) as [Hw Hb'].
    { apply Forall_forall. intros i Hi. apply Hboxes, Hmem, Hi. }
    destruct (Hb' Hne) as (X & Y & HX & HY & Hcov & Hx & Hy & Hx2 & Hy2).
    simpl. rewrite HX, HY, Hw.
    set (acc := foldl (add_word_box words) box_acc_init idxs) in *.
    exists idxs, X, Y, (max_x acc - X), (max_y acc - Y).
    split; [done|]. split; [done|]. split; [done|]. split; [done|].
    intros [[[X' Y'] W'] H'] HB.
    destruct Hx as (i1 & x1 & y1 & w1 & h1 & Hi1 & Hb1 & <-).
    destruct Hy as (i2 & x2 & y2 & w2 & h2 & Hi2 & Hb2 & <-).
    destruct Hx2 as (i3 & x3 & y3 & w3 & h3 & Hi3 & Hb3 & Hm3).
    destruct Hy2 as (i4 & x4 & y4 & w4 & h4 & Hi4 & Hb4 & Hm4).
    pose proof (HB _ _ Hi1 Hb1). pose proof (HB _ _ Hi2 Hb2).
    pose proof (HB _ _ Hi3 Hb3). pose proof (HB _ _ Hi4 Hb4).
    simpl in *. lia.
  - intros w0 x y w h Hzero Hw0 Hbox Hpx.
    assert (word_indices m a b = {[0%nat]}) as ->.
    { apply set_eq. intros i. by rewrite word_indices_spec, Hzero, elem_of_singleton. }
    rewrite bool_decide_false.
    2: { intros Hempty. assert (0%nat ∈ (∅ : gset nat)) as Hin
           by (rewrite <-Hempty; by apply elem_of_singleton).
         by apply not_elem_of_empty in Hin. }
    rewrite elements_singleton. simpl.
    rewrite (add_word_box_boxed _ _ _ _ _ _ _ _ Hw0 Hbox). simpl.
    simpl in Hpx.
    replace (Z.max 0 (x + w) - x) with w by lia.
    replace (Z.max 0 (y + h) - y) with h by lia. done.
Qed.

Lemma map_entity_to_words_geometry_witness :
  _map_entity_to_words greeting_entity
    (_create_char_to_word_map (lit "Hello World") hello_world) hello_world
  = Some (set_geometry greeting_entity [10; 20; 50; 12] [lit "Hello"]).
Proof.
  refine (proj2 (proj2 (map_entity_to_words_geometry greeting_entity
                          (_create_char_to_word_map (lit "Hello World") hello_world)
                          hello_world 1 6 eq_refl eq_refl))
            {| w_word := Some (lit "Hello"); w_bbox := Some [10; 20; 50; 12] |}
            10 20 50 12 _ eq_refl eq_refl _).
  - intros i. unfold referenced. split.
    + intros (k & Hk & Hm).
      assert (k = 1 ∨ k = 2 ∨ k = 3 ∨ k = 4 ∨ k = 5) as Hc by lia.
      destruct Hc as [->|[->|[->|[->| ->]]]]; vm_compute in Hm; congruence.
    + intros ->. exists 1. split; [lia|reflexivity].
  - simpl. lia.
Defined.

(** ** The table detector *)

Lemma similar_counts_spec row1 row2 row3 :
  similar_counts row1 row2 row3 = true ↔
  Z.abs (len row1 - len row2) ≤ 1 ∧ Z.abs (len row2 - len row3) ≤ 1 ∧ 2 ≤ len row1.
Proof.
  unfold similar_counts. rewrite !andb_true_iff, !Z.leb_le. tauto.
Qed.

Lemma column_close_spec row1 row2 row3 j w1 w2 w3 :
  row1 !! j = Some w1 → row2 !! j = Some w2 → row3 !! j = Some w3 →
  column_close row1 row2 row3 j = true ↔
  Z.max (Z.max (bbox_left w1) (bbox_left w2)) (bbox_left w3)
    - Z.min (Z.min (bbox_left w1) (bbox_left w2)) (bbox_left w3) ≤ 50.
Proof.
  intros H1 H2 H3. unfold column_close. rewrite H1, H2, H3.
  rewrite negb_true_iff, Z.ltb_ge. done.
Qed.

Lemma aligned_spec row1 row2 row3 :
  aligned (sort_row row1) (sort_row row2) (sort_row row3) = true ↔
  columns_within_50 row1 row2 row3.
Proof.
  unfold aligned, columns_within_50. rewrite forallb_forall. split.
  - intros H j w1 w2 w3 H1 H2 H3.
    apply (column_close_spec _ _ _ j w1 w2 w3 H1 H2 H3), H, in_seq.
    apply lookup_lt_Some in H1, H2, H3. lia.
  - intros H j Hj. apply in_seq in Hj.
    destruct (lookup_lt_is_Some_2 (sort_row row1) j) as [w1 H1]; [lia|].
    destruct (lookup_lt_is_Some_2 (sort_row row2) j) as [w2 H2]; [lia|].
    destruct (lookup_lt_is_Some_2 (sort_row row3) j) as [w3 H3]; [lia|].
    apply (column_close_spec _ _ _ j w1 w2 w3 H1 H2 H3). eauto.
Qed.

Lemma seeded_seed rows i : seeded rows i = true ↔ window seed rows i.
Proof.
  unfold seeded, window, seed.
  destruct (rows !! i) as [row1|]; [|split; [done|by intros (?&?&?&?&_)]].
  destruct (rows !! (i + 1)%nat) as [row2|]; [|split; [done|by intros (?&?&?&?&?&_)]].
  destruct (rows !! (i + 2)%nat) as [row3|]; [|split; [done|by intros (?&?&?&?&?&?&_)]].
  rewrite andb_true_iff, similar_counts_spec, aligned_spec. split.
  - intros [(? & ? & ?) ?]. exists row1, row2, row3. done.
  - intros (? & ? & ? & [= <-] & [= <-] & [= <-] & ? & ? & ? & ?). done.
Qed.

Lemma sorted_keys_ascending (buckets : gmap Z (list word)) :
  StronglySorted Z.lt (sorted_keys buckets).
Proof.
  unfold sorted_keys.
  assert (StronglySorted Z.le (merge_sort Z.le (elements (dom buckets)))) as Hs
    by apply (StronglySorted_merge_sort Z.le).
  assert (NoDup (merge_sort Z.le (elements (dom buckets)))) as Hnd
    by (rewrite merge_sort_Permutation; apply NoDup_elements).
  induction Hs as [|x l Hs IH Hx]; [constructor|].
  apply NoDup_cons in Hnd as [Hx' Hnd]. constructor; [by apply IH|].
  rewrite Forall_forall in Hx. apply Forall_forall. intros y Hy.
  specialize (Hx y Hy). assert (x ≠ y) by (by intros ->). lia.
Qed.

(** The words of the rows are words of the page. *)
Lemma group_words_elem words key row w :
  group_words words !! key = Some row → w ∈ row → w ∈ words.
Proof.
  unfold group_words. revert key row w.
  induction words as [|w0 words IH] using rev_ind; intros key row w.
  { simpl. by rewrite lookup_empty. }
  rewrite foldl_app. simpl. unfold group_word at 1.
  destruct (bbox4 (w_bbox w0)) as [[[[x y] wd] h]|].
  - unfold bucket_append. destruct (decide (bucket_key y h = key)) as [->|Hne].
    + rewrite lookup_insert_eq. intros [= <-] Hw.
      apply elem_of_app in Hw as [Hw|Hw]; apply elem_of_app; [left|by right].
      destruct (foldl group_word ∅ words !! key) as [r|] eqn:E; simpl in Hw.
      * by apply (IH key r).
      * by apply elem_of_nil in Hw.
    + rewrite lookup_insert_ne by done. intros Hr Hw.
      apply elem_of_app. left. by apply (IH key row).
  - intros Hr Hw. apply elem_of_app. left. by apply (IH key row).
Qed.

Lemma table_rows_elem words row w : row ∈ table_rows words → w ∈ row → w ∈ words.
Proof.
  unfold table_rows. intros Hr Hw. apply list_elem_of_fmap in Hr as (key & -> & _).
  destruct (group_words words !! key) as [r|] eqn:E; simpl in Hw.
  - by apply (group_words_elem words key r).
  - by apply elem_of_nil in Hw.
Qed.

Lemma row_cells_is_Some row_idx row :
  Forall (λ w, is_Some (w_word w)) row → is_Some (row_cells row_idx row).
Proof.
  intros H. unfold row_cells. apply mapM_is_Some, Forall_forall.
  intros [col w] Hin. simpl.
  assert (w ∈ row) as Hw.
  { unfold enumerate in Hin. apply elem_of_zip_r in Hin. done. }
  rewrite Forall_forall in H. destruct (H w Hw) as [t ->]. by eexists.
Qed.

Lemma table_at_is_Some words i :
  Forall (λ w, is_Some (w_word w)) words → is_Some (table_at (table_rows words) i).
Proof.
  intros H. unfold table_at, build_table.
  destruct (foldl update_bounds _ _) as [[[a b] c] d].
  match goal with |- is_Some (mapM ?f ?l ≫= _) =>
    assert (is_Some (mapM f l)) as [cells ->]; [|by eexists] end.
  apply mapM_is_Some, Forall_forall. intros [r row] Hin. simpl.
  apply row_cells_is_Some, Forall_forall. intros w Hw.
  unfold enumerate in Hin. apply elem_of_zip_r in Hin.
  apply list_elem_of_fmap in Hin as (row0 & -> & Hrow0).
  assert (row0 ∈ table_rows words) as Hrow.
  { eapply elem_of_sublist; [exact Hrow0|].
    etrans; [apply sublist_take|apply sublist_drop]. }
  unfold sort_row, sort_by in Hw. rewrite stable_sort_perm in Hw.
  rewrite Forall_forall in H. apply H. by eapply table_rows_elem.
Qed.

(** C6, as the code has it: the rows are taken by ascending row key, and
    the window of three consecutive rows starting at [i] seeds a table
    exactly when the word counts of neighbouring rows (first and second,
    second and third) differ by at most 1, the first row has at least 2
    words, and, the rows being sorted by x, the left edges of every column
    present in all three rows are at most 50 pixels apart.  The tables of the
    page are those of the seeds, one for each, and the function returns them
    when every word has a text. *)
Theorem table_seed_condition (words : list word) :
  StronglySorted Z.lt (sorted_keys (group_words words)) ∧
  (∀ i, seeded (table_rows words) i = true ↔ window seed (table_rows words) i) ∧
  (∀ tables, _detect_tables words = Some tables →
     Forall2 (λ i t, table_at (table_rows words) i = Some t)
       (filter (λ i, seeded (table_rows words) i = true)
          (seq 0 (length (table_rows words) - 2)))
       tables) ∧
  (Forall (λ w, is_Some (w_word w)) words → is_Some (_detect_tables words)).
Proof.
  split; [apply sorted_keys_ascending|]. split; [intros i; apply seeded_seed|].
  unfold _detect_tables. split.
  - intros tables H. by apply mapM_Some in H.
  - intros H. apply mapM_is_Some, Forall_forall. intros i _. simpl.
    by apply table_at_is_Some.
Qed.

Lemma table_seed_condition_witness :
  seeded (table_rows words_3_3_3) 0 = true ∧
  (map t_rows <$> _detect_tables words_3_3_3) = Some [3] ∧
  (map t_cols <$> _detect_tables words_3_3_3) = Some [3] ∧
  is_Some (_detect_tables words_3_3_3).
Proof.
  destruct (table_seed_condition words_3_3_3) as (_ & H & _ & Hret).
  split; [|split; [reflexivity|split; [reflexivity|]]].
  - apply H. eexists _, _, _. split; [reflexivity|]. split; [reflexivity|].
    split; [reflexivity|]. unfold seed.
    split; [by vm_compute|]. split; [by vm_compute|]. split; [by vm_compute|].
    apply aligned_spec. reflexivity.
  - apply Hret. repeat constructor; by eexists.
Defined.

(** The condition in the words of the specification does not describe the
    seeds of the code: rows of 2, 1 and 2 words make a table although the
    smallest row has a single word, and rows of 2, 3 and 4 words make one
    although the first and the third count differ by 2. *)
Lemma table_seed_spec_counterexample :
  (seeded (table_rows words_2_1_2) 0 = true
   ∧ length <$> _detect_tables words_2_1_2 = Some 1%nat
   ∧ ¬ window spec_seed (table_rows words_2_1_2) 0) ∧
  (seeded (table_rows words_2_3_4) 0 = true
   ∧ length <$> _detect_tables words_2_3_4 = Some 1%nat
   ∧ ¬ window spec_seed (table_rows words_2_3_4) 0).
Proof.
  split; (split; [reflexivity|split; [reflexivity|]]).
  - intros (r1 & r2 & r3 & H1 & H2 & H3 & _ & _ & _ & Hmin & _).
    vm_compute in H1, H2, H3. injection H1 as <-. injection H2 as <-. injection H3 as <-.
    unfold len in Hmin. simpl in Hmin. lia.
  - intros (r1 & r2 & r3 & H1 & H2 & H3 & _ & _ & Hd & _).
    vm_compute in H1, H2, H3. injection H1 as <-. injection H2 as <-. injection H3 as <-.
    unfold len in Hd. simpl in Hd. lia.
Qed.

(** ** Text blocks and headings *)

(** A block of several lines is a paragraph, whatever its heights. *)
Lemma is_heading_several_lines words current_block current_block_lines :
  len current_block_lines ≠ 1 →
  is_heading words current_block current_block_lines = Some false.
Proof. intros H. unfold is_heading. by rewrite bool_decide_false. Qed.

(** A block of one line is a heading when the binary64 comparison holds. *)
Lemma is_heading_single_line words current_block line block_sum all_sum :
  sum_heights current_block = Some block_sum → sum_heights words = Some all_sum →
  is_heading words current_block [line]
  = Some (PrimFloat.ltb
            (PrimFloat.mul (true_div all_sum (len words)) ratio_1_2)
            (true_div block_sum (len current_block))).
Proof. intros Hb Ha. unfold is_heading. simpl. by rewrite Hb, Ha. Qed.

(** C7 does not hold of the code on the page [title_page]: the title line is
    a single-line block whose mean word height, 14, is exactly 1.2 times the
    mean word height of the page, 35/3, and it is classified heading.  The
    comparison is made on binary64 numbers: 35/3 is rounded to
    11.666666666666666 and its product by the literal 1.2 to
    13.999999999999998, which is less than 14.  On [title_page_10], with the
    means 12 and 10, the product is 12 and the block is a paragraph. *)
Theorem heading_at_exactly_1_2_times :
  exactly_1_2_times 14 1 35 3 ∧
  _detect_text_blocks title_page
  = Some [ {| b_text := lit "Title"; b_bbox := [0; 0; 50; 14];
              b_type := "heading"; b_line_count := 1; b_word_count := 1 |};
           {| b_text := lit "some text"; b_bbox := [0; 40; 70; 11];
              b_type := "paragraph"; b_line_count := 1; b_word_count := 2 |} ] ∧
  exactly_1_2_times 12 1 30 3 ∧
  _detect_text_blocks title_page_10
  = Some [ {| b_text := lit "Title"; b_bbox := [0; 0; 50; 12];
              b_type := "paragraph"; b_line_count := 1; b_word_count := 1 |};
           {| b_text := lit "some text"; b_bbox := [0; 40; 70; 9];
              b_type := "paragraph"; b_line_count := 1; b_word_count := 2 |} ].
Proof.
  split; [reflexivity|]. split; [reflexivity|]. split; reflexivity.
Qed.

(** ** The redaction engine *)

Lemma world_extends_refl w : world_extends w w.
Proof. split; [done|]. reflexivity. Qed.

Lemma world_extends_trans w1 w2 w3 :
  world_extends w1 w2 → world_extends w2 w3 → world_extends w1 w3.
Proof. intros [E1 P1] [E2 P2]. split; [congruence|]. by etrans. Qed.

Lemma world_extends_add w c : world_extends w (add_created w c).
Proof. split; [done|]. by apply prefix_app_r. Qed.

Lemma open_image_extends w w' p img :
  world_extends w w' → open_image w p = Some img → open_image w' p = Some img.
Proof.
  intros [E P] H. destruct p as [name|n]; simpl in *; [by rewrite E|].
  destruct (created w !! n) as [o|] eqn:En; [|done].
  by rewrite (prefix_lookup_Some _ _ _ _ En P).
Qed.

Create HintDb files discriminated.
#[local] Hint Resolve world_extends_refl world_extends_add : files.

(** The guards of the loop body, taken one after the other; [early] closes
    the branches that leave the body before the entities are looked at. *)
Ltac page_guards entry early :=
  unfold redact_page, redact_page_try;
  destruct entry as [pp|]; [|early];
  destruct (is_success (pp_status pp)) eqn:Estatus; simpl; [|early];
  destruct (find_page dp_page_num _ _) as [doc_page|] eqn:Edoc; [|early];
  destruct (or_pages _) as [pages|] eqn:Epages; [|early].

Lemma padded_same_size img img' b :
  img_width img' = img_width img → img_height img' = img_height img →
  padded img' b = padded img b.
Proof. intros Hw Hh. destruct b as [[[x y] w] h]. unfold padded. by rewrite Hw, Hh. Qed.

(** The loop over the entities, when no rectangle is refused: one fill and
    one area for every entity with a box of 4 entries, in order. *)
Lemma redact_boxes_spec lib color img areas es img' areas' :
  redact_boxes lib color (img, areas) es = Some (img', areas') →
  img_width img' = img_width img ∧ img_height img' = img_height img ∧
  img_fills img' = img_fills img ++ (fill_for img color <$> boxed_entities es) ∧
  areas' = areas ++ (area_for img <$> boxed_entities es).
Proof.
  revert img areas. induction es as [|e es IH]; intros img areas.
  { simpl. intros [= <- <-]. by rewrite !app_nil_r. }
  change (redact_boxes lib color (img, areas) (e :: es))
    with (redact_box lib color (img, areas) e ≫= λ st', redact_boxes lib color st' es).
  unfold redact_box, boxed_entities. csimpl.
  destruct (bbox4 (e_bbox e)) as [b|] eqn:Eb; simpl.
  - destruct (rectangle_ok lib (padded img b)); [|done]. simpl.
    intros H. apply IH in H as (Hw & Hh & Hf & Ha). simpl in *.
    split; [done|]. split; [done|]. fold (boxed_entities es).
    rewrite Hf, Ha, <-!app_assoc. simpl. unfold fill_for, area_for.
    split; f_equal; f_equal; apply list_fmap_ext; intros ? [e' b'] _; simpl;
      by rewrite (padded_same_size img _ b') by done.
  - intros H. by apply IH in H.
Qed.

(** The two ways out of [redact_image]. *)
Lemma redact_image_spec lib w image_path es color :
  let r := redact_image lib w image_path es color in
  world_extends w r.2 ∧
  ((r.1 = (Existing <$> image_path, []))
   ∨ (∃ name img img',
        image_path = Some name ∧ existing w !! name = Some img ∧
        r.1.1 = Some (Created (length (created w))) ∧
        open_image r.2 (Created (length (created w))) = Some img' ∧
        img_width img' = img_width img ∧ img_height img' = img_height img ∧
        img_fills img' = img_fills img ++ (fill_for img color <$> boxed_entities es) ∧
        r.1.2 = area_for img <$> boxed_entities es)).
Proof.
  unfold redact_image.
  destruct image_path as [name|]; simpl; [|by auto with files].
  destruct (existing w !! name) as [img|] eqn:Ei; simpl; [|by auto with files].
  destruct (redact_boxes lib color (img, []) es) as [[img' areas]|] eqn:Eb;
    [|by auto with files].
  apply redact_boxes_spec in Eb as (Hw & Hh & Hf & Ha). simpl in Ha.
  destruct (save_ok lib img'); simpl; (split; [auto with files|]); [right|by left].
  exists name, img, img'. repeat split; try done.
  by rewrite list_lookup_middle.
Qed.

(** One page: the entry has the number of the page, the increment of the
    total is the length of its areas, and the files only grow. *)
Lemma redact_page_basic lib doc ocr w i entry :
  let o := redact_page lib doc ocr w i entry in
  world_extends w o.2 ∧
  rp_page_num o.1.1.1 = Z.of_nat i + 1 ∧
  o.1.2 = len (areas_of o.1.1.1) ∧
  (rp_status o.1.1.1 = "success"%string ∨ rp_status o.1.1.1 = "error"%string).
Proof.
  page_guards entry ltac:(by auto with files).
  destruct (pp_entities pp) as [|e es] eqn:Ees; [by auto with files|].
  pose proof (redact_image_spec lib w (dp_temp_path doc_page) (e :: es) "black") as [Hext _].
  destruct (redact_image lib w (dp_temp_path doc_page) (e :: es) "black") as [[p areas] w'].
  simpl in *. auto.
Qed.





(** The areas of a page and the rectangles filled on its image. *)
Lemma redact_page_areas lib doc ocr w i entry areas :
  let o := redact_page lib doc ocr w i entry in
  rp_redacted_areas o.1.1.1 = Some areas →
  ∃ pp, entry = PiiDict pp ∧ rp_redactions o.1.1.1 = Some (len areas) ∧
    ((areas = [] ∧ rp_redacted_path o.1.1.1 = Some (Existing <$> source_path doc i))
     ∨ (∃ name img n img',
          source_path doc i = Some name ∧ existing w !! name = Some img ∧
          rp_redacted_path o.1.1.1 = Some (Some (Created n)) ∧
          open_image o.2 (Created n) = Some img' ∧
          img_width img' = img_width img ∧ img_height img' = img_height img ∧
          img_fills img' = img_fills img
                           ++ (fill_for img "black" <$> boxed_entities (pp_entities pp)) ∧
          areas = area_for img <$> boxed_entities (pp_entities pp))).
Proof.
  unfold source_path. page_guards entry ltac:(done).
  destruct (pp_entities pp) as [|e es] eqn:Ees; [done|].
  pose proof (redact_image_spec lib w (dp_temp_path doc_page) (e :: es) "black") as [_ Hr].
  destruct (redact_image lib w (dp_temp_path doc_page) (e :: es) "black") as [[p a] w'].
  simpl in *. intros [= ->]. exists pp. split; [done|]. split; [done|].
  destruct Hr as [[= -> ->]|(name & img & img' & Hn & Hi & -> & Ho & Hw & Hh & Hf & ->)].
  - by left.
  - right. exists name, img, (length (created w)), img'. simpl.
    repeat split; try done; by rewrite Ees.
Qed.

Lemma sum_of_areas_snoc pages p :
  sum_of_areas (pages ++ [p]) = sum_of_areas pages + len (areas_of p).
Proof.
  unfold sum_of_areas. induction pages as [|q pages IH]; simpl; [lia|].
  rewrite IH. lia.
Qed.

Lemma engine_loop_snoc lib doc ocr w es e :
  engine_loop lib doc ocr w (es ++ [e])
  = engine_step lib doc ocr (engine_loop lib doc ocr w es) (length es, e).
Proof. unfold engine_loop. by rewrite enumerate_snoc, foldl_app. Qed.

(** The invariant of the loop over the pages: one entry for every page seen,
    in order; the total is the sum of the lengths of the areas; the files only
    grow; and the entry of a page is what [redact_page] makes of that page on
    the files as they were when the page was reached. *)
Lemma engine_loop_invariant lib doc ocr w es :
  length (redacted_pages (engine_loop lib doc ocr w es)) = length es ∧
  total_redactions (engine_loop lib doc ocr w es)
  = sum_of_areas (redacted_pages (engine_loop lib doc ocr w es)) ∧
  world_extends w (files (engine_loop lib doc ocr w es)) ∧
  ∀ i e, es !! i = Some e →
    ∃ wi, world_extends w wi ∧
          world_extends (redact_page lib doc ocr wi i e).2 (files (engine_loop lib doc ocr w es)) ∧
          redacted_pages (engine_loop lib doc ocr w es) !! i
          = Some (redact_page lib doc ocr wi i e).1.1.1.
Proof.
  induction es as [|e0 es IH] using rev_ind.
  { split; [done|]. split; [done|]. split; [apply world_extends_refl|]. by intros i e. }
  destruct IH as (IL & IT & IW & IP).
  rewrite engine_loop_snoc. set (st := engine_loop lib doc ocr w es) in *.
  unfold engine_step. simpl.
  pose proof (redact_page_basic lib doc ocr (files st) (length es) e0) as (Hw & _ & Hc & _).
  destruct (redact_page lib doc ocr (files st) (length es) e0) as [[[page text] count] w'] eqn:Eo.
  simpl in *.
  split; [rewrite !length_app; simpl; lia|].
  split; [rewrite sum_of_areas_snoc; lia|].
  split; [by eapply world_extends_trans|].
  intros i e Hi. destruct (decide (i = length es)) as [->|Hne].
  - rewrite list_lookup_middle in Hi by done. injection Hi as <-.
    exists (files st). split; [done|]. rewrite Eo. simpl.
    split; [apply world_extends_refl|].
    by rewrite list_lookup_middle.
  - assert (i < length es)%nat as Hlt.
    { apply lookup_lt_Some in Hi. rewrite length_app in Hi. simpl in Hi. lia. }
    rewrite lookup_app_l in Hi by done.
    destruct (IP i e Hi) as (wi & H1 & H2 & H3). exists wi.
    split; [done|]. split; [by eapply world_extends_trans|].
    rewrite lookup_app_l by lia. done.
Qed.

Lemma process_document_success lib w doc ocr pii :
  is_success (dd_status doc) = true → is_success (or_status ocr) = true →
  is_success (pr_status pii) = true →
  process_document lib w doc ocr pii
  = (RedactionSuccess
       (len (redacted_pages (engine_loop lib doc ocr w (pr_results pii))))
       (total_redactions (engine_loop lib doc ocr w (pr_results pii)))
       (redacted_pages (engine_loop lib doc ocr w (pr_results pii)))
       (redacted_texts (engine_loop lib doc ocr w (pr_results pii))),
     files (engine_loop lib doc ocr w (pr_results pii))).
Proof. intros H1 H2 H3. unfold process_document. by rewrite H1, H2, H3. Qed.

Lemma process_document_inv lib w doc ocr pii n total pages texts :
  (process_document lib w doc ocr pii).1 = RedactionSuccess n total pages texts →
  pages = redacted_pages (engine_loop lib doc ocr w (pr_results pii)) ∧
  total = total_redactions (engine_loop lib doc ocr w (pr_results pii)) ∧
  (process_document lib w doc ocr pii).2 = files (engine_loop lib doc ocr w (pr_results pii)).
Proof.
  unfold process_document. destruct (_ || _); simpl; [done|]. by intros [= <- <- <- <-].
Qed.

(** The recorded box of an area is the rectangle that was filled for it. *)
Lemma area_is_fill img color eb :
  area_rectangle (area_for img eb) = Some (fill_for img color eb).1.
Proof.
  destruct eb as [e [[[x y] wd] h]]. unfold area_for, fill_for, area_rectangle. simpl.
  do 2 f_equal; [f_equal|]; lia.
Qed.

(** C3: the reported [total_redactions] is the sum over the pages of the
    lengths of their [redacted_areas].  The areas of a page are the record of
    the rectangles filled on the image of the page: either the image is the
    source file, on which nothing was filled, and there is no area; or it is
    a new file that shows the source image with one more fill for every
    entity that carries a box of 4 entries, and the areas are the entries
    (entity type, box) of these fills, in order, the box of each being the
    padded and clamped rectangle that was filled. *)
Theorem redaction_count_invariant lib w doc ocr pii n total pages texts :
  (process_document lib w doc ocr pii).1 = RedactionSuccess n total pages texts →
  total = sum_of_areas pages ∧
  existing (process_document lib w doc ocr pii).2 = existing w ∧
  (∀ img color eb, area_rectangle (area_for img eb) = Some (fill_for img color eb).1) ∧
  ∀ i p areas, pages !! i = Some p → rp_redacted_areas p = Some areas →
    rp_redactions p = Some (len areas) ∧
    ∃ pp, pr_results pii !! i = Some (PiiDict pp) ∧
      ((areas = [] ∧ rp_redacted_path p = Some (Existing <$> source_path doc i))
       ∨ (∃ name img m img',
            source_path doc i = Some name ∧ existing w !! name = Some img ∧
            rp_redacted_path p = Some (Some (Created m)) ∧
            open_image (process_document lib w doc ocr pii).2 (Created m) = Some img' ∧
            img_width img' = img_width img ∧ img_height img' = img_height img ∧
            img_fills img' = img_fills img
                             ++ (fill_for img "black" <$> boxed_entities (pp_entities pp)) ∧
            areas = area_for img <$> boxed_entities (pp_entities pp))).
Proof.
  intros H. apply process_document_inv in H as (-> & -> & Hw).
  destruct (engine_loop_invariant lib doc ocr w (pr_results pii)) as (IL & IT & IW & IP).
  rewrite Hw. split; [done|]. split; [by destruct IW|]. split; [apply area_is_fill|].
  intros i p areas Hp Ha.
  destruct (lookup_lt_is_Some_2 (pr_results pii) i) as [e He].
  { rewrite <-IL. by eapply lookup_lt_Some. }
  destruct (IP i e He) as (wi & [Hwe Hwc] & Hext & Hpage).
  rewrite Hp in Hpage. injection Hpage as ->.
  destruct (redact_page_areas lib doc ocr wi i e areas Ha) as (pp & -> & Hr & Hcase).
  split; [done|]. exists pp. split; [done|].
  destruct Hcase as [?|(name & img & m & img' & ? & Hi & ? & Ho & ?)]; [by left|right].
  exists name, img, m, img'. rewrite <-Hwe. repeat split; try tauto.
  by eapply open_image_extends.
Qed.

Lemma redaction_count_invariant_witness :
  2 = sum_of_areas (result_pages
        (process_document strict_imaging three_files three_pages three_texts three_findings).1)
  ∧ ∃ img',
      open_image
        (process_document strict_imaging three_files three_pages three_texts three_findings).2
        (Created 1) = Some img'
      ∧ img_fills img' = [((0, 95, 207, 125), "black"%string)].
Proof.
  destruct (redaction_count_invariant strict_imaging three_files three_pages three_texts
              three_findings _ _ _ _ eq_refl) as (Ht & _ & _ & Hp).
  split; [exact Ht|].
  destruct (Hp 2%nat _ _ eq_refl eq_refl) as (_ & pp & Hpp & [[Hnil _]|Hfill]).
  - discriminate Hnil.
  - destruct Hfill as (name & img & m & img' & Hs & Hi & Hm & Ho & _ & _ & Hf & _).
    injection Hm as <-. exists img'. split; [exact Ho|].
    injection Hpp as <-. injection Hs as <-.
    vm_compute in Hi. injection Hi as <-. exact Hf.
Defined.



(** C10: whenever the three inputs carry the status success the result of
    [process_document] has the status success and reports as many pages as
    there are PII page entries, whatever the statuses of the entries of
    [redacted_pages] are: none of them turns the document into an error. *)
Theorem document_status_success lib w doc ocr pii :
  is_success (dd_status doc) = true → is_success (or_status ocr) = true →
  is_success (pr_status pii) = true →
  result_status (process_document lib w doc ocr pii).1 = "success"%string ∧
  ∃ total pages texts,
    (process_document lib w doc ocr pii).1
    = RedactionSuccess (len (pr_results pii)) total pages texts ∧
    length pages = length (pr_results pii).
Proof.
  intros H1 H2 H3. rewrite (process_document_success lib w doc ocr pii H1 H2 H3). simpl.
  destruct (engine_loop_invariant lib doc ocr w (pr_results pii)) as (IL & _).
  split; [done|]. eexists _, _, _. split; [by unfold len; rewrite IL|done].
Qed.

(** With the OCR result of the pipeline, which holds a number under [pages],
    every entry is an error and the document is a success. *)
Lemma document_status_success_witness :
  result_status
    (process_document strict_imaging three_files three_pages counted_texts three_findings).1
  = "success"%string ∧
  Forall (λ p, rp_status p = "error"%string)
    (result_pages
       (process_document strict_imaging three_files three_pages counted_texts three_findings).1)
  ∧ length (result_pages
       (process_document strict_imaging three_files three_pages counted_texts three_findings).1)
    = 3%nat.
Proof.
  destruct (document_status_success strict_imaging three_files three_pages counted_texts
              three_findings eq_refl eq_refl eq_refl) as (Hs & total & pages & texts & Hr & Hl).
  split; [exact Hs|]. split; [|reflexivity].
  repeat constructor.
Defined.

(* ===================================================================== *)
(** * Part III: further properties of the code                           *)
(* ===================================================================== *)

(** ** The character-to-word mapper: order *)

Lemma cursor_at_step text words i :
  cursor_at text words i ≤ cursor_at text words (S i).
Proof.
  destruct (words !! i) as [w|] eqn:Hi.
  - destruct (decide (word_text w ≠ [] ∧
                      py_find text (word_text w) (cursor_at text words i) ≠ -1))
      as [[Hw Hp]|Hn].
    + assert (found_at text words i w (py_find text (word_text w) (cursor_at text words i)))
        as Hf by done.
      destruct (cursor_at_found _ _ _ _ _ Hf) as [H1 H2].
      pose proof (len_nonneg (word_text w)). lia.
    + rewrite (cursor_at_not_found text words i w Hi); [lia|].
      intros (p & _ & Hw & Hp & Hne). apply Hn. split; [done|]. by rewrite Hp.
  - apply lookup_ge_None in Hi. unfold cursor_at. rewrite !take_ge by lia. lia.
Qed.

Lemma cursor_at_mono text words i j :
  (i ≤ j)%nat → cursor_at text words i ≤ cursor_at text words j.
Proof.
  induction 1 as [|j _ IH]; [lia|].
  pose proof (cursor_at_step text words j). lia.
Qed.

(** The words that are found lie one behind the other in the text. *)
Lemma found_at_ordered text words i j w p w' p' :
  (i < j)%nat → found_at text words i w p → found_at text words j w' p' →
  p + len (word_text w) ≤ p'.
Proof.
  intros Hij Hi Hj.
  destruct (cursor_at_found _ _ _ _ _ Hi) as [_ H1].
  destruct (cursor_at_found _ _ _ _ _ Hj) as [H2 _].
  pose proof (cursor_at_mono text words (S i) j ltac:(lia)). lia.
Qed.

(** X1: the character-to-word map only has offsets of the text as keys, and
    it is monotone: a larger offset never maps to a smaller word index.  The
    stretches of two words that were both found do not overlap, the word
    with the smaller index lying in front. *)
Theorem char_to_word_map_monotone (text : str) (words : list word) :
  (∀ k i, _create_char_to_word_map text words !! k = Some i → 0 ≤ k < len text) ∧
  (∀ k1 k2 i1 i2,
     _create_char_to_word_map text words !! k1 = Some i1 →
     _create_char_to_word_map text words !! k2 = Some i2 →
     k1 ≤ k2 → (i1 ≤ i2)%nat) ∧
  (∀ i j w p w' p',
     (i < j)%nat → found_at text words i w p → found_at text words j w' p' →
     p + len (word_text w) ≤ p').
Proof.
  split; [|split; [|apply found_at_ordered]].
  - intros k i Hk.
    destruct (map_words_invariant text words) as (Hc & Hkeys & _).
    specialize (Hkeys k i Hk). lia.
  - intros k1 k2 i1 i2 H1 H2 Hk.
    apply char_to_word_map_lookup in H1 as (w1 & p1 & Hf1 & Hk1).
    apply char_to_word_map_lookup in H2 as (w2 & p2 & Hf2 & Hk2).
    destruct (decide (i1 ≤ i2)%nat) as [|Hgt]; [done|].
    pose proof (found_at_ordered text words i2 i1 w2 p2 w1 p1 ltac:(lia) Hf2 Hf1). lia.
Qed.

(** ** The entity-to-geometry mapper: any words *)

(** The loop over the indices [l], whatever the words carry: only the words
    with a box of 4 entries count. *)
Lemma fold_any_word_boxes words l :
  let acc := foldl (add_word_box words) box_acc_init l in
  let boxed := filter (λ i, is_Some (word_box words i)) l in
  entity_words acc = texts_of words boxed ∧
  0 ≤ max_x acc ∧ 0 ≤ max_y acc ∧
  (boxed = [] → min_x acc = Inf ∧ min_y acc = Inf) ∧
  (boxed ≠ [] →
   ∃ X Y, min_x acc = Fin X ∧ min_y acc = Fin Y ∧
     ∀ i bx, i ∈ l → word_box words i = Some bx →
             covers (X, Y, max_x acc - X, max_y acc - Y) bx).
Proof.
  induction l as [|i l IH] using rev_ind; intros acc boxed.
  { subst acc boxed. simpl. repeat split; try done. }
  subst acc boxed. rewrite foldl_app, filter_app. simpl.
  set (acc := foldl (add_word_box words) box_acc_init l) in *.
  set (boxed := filter (λ i, is_Some (word_box words i)) l) in *.
  destruct IH as (IHw & IHx & IHy & IHn & IHb).
  destruct (word_box words i) as [[[[x y] w] h]|] eqn:Hbi.
  - rewrite filter_cons_True by (by rewrite Hbi). rewrite filter_nil.
    unfold word_box in Hbi. destruct (words !! i) as [w0|] eqn:Hw0; [|done]. simpl in Hbi.
    rewrite (add_word_box_boxed _ _ _ _ _ _ _ _ Hw0 Hbi). simpl.
    assert (word_box words i = Some (x, y, w, h)) as Hbi'
      by (unfold word_box; by rewrite Hw0).
    split. { rewrite IHw. unfold texts_of. rewrite omap_app. simpl. by rewrite Hw0. }
    split; [lia|]. split; [lia|]. split; [intros Hnil; by destruct boxed|].
    intros _. destruct (decide (boxed = [])) as [Hnil|Hne].
    + destruct (IHn Hnil) as [-> ->]. simpl. exists x, y. split; [done|]. split; [done|].
      intros j bx Hj Hbj. apply elem_of_app in Hj as [Hj|Hj].
      * assert (j ∈ boxed) as Hjb
          by (apply list_elem_of_filter; split; [by rewrite Hbj|done]).
        rewrite Hnil in Hjb. by apply elem_of_nil in Hjb.
      * apply list_elem_of_singleton in Hj as ->. rewrite Hbi' in Hbj.
        injection Hbj as <-. simpl. lia.
    + destruct (IHb Hne) as (X & Y & -> & -> & Hcov). simpl.
      exists (Z.min X x), (Z.min Y y). split; [done|]. split; [done|].
      intros j bx Hj Hbj. apply elem_of_app in Hj as [Hj|Hj].
      * specialize (Hcov j bx Hj Hbj). destruct bx as [[[x' y'] w'] h']. simpl in *. lia.
      * apply list_elem_of_singleton in Hj as ->. rewrite Hbi' in Hbj.
        injection Hbj as <-. simpl. lia.
  - rewrite filter_cons_False by (rewrite Hbi; by intros []). rewrite app_nil_r.
    assert (add_word_box words acc i = acc) as ->.
    { unfold add_word_box. unfold word_box in Hbi.
      destruct (words !! i) as [w0|]; [|done]. simpl in Hbi. by rewrite Hbi. }
    split; [done|]. split; [done|]. split; [done|]. split; [done|].
    intros Hne. destruct (IHb Hne) as (X & Y & HX & HY & Hcov).
    exists X, Y. split; [done|]. split; [done|].
    intros j bx Hj Hbj. apply elem_of_app in Hj as [Hj|Hj]; [by apply (Hcov j)|].
    apply list_elem_of_singleton in Hj as ->. congruence.
Qed.

(** X2: the geometric mapping of an entity raises exactly when an offset is
    missing or is not an integer.  Otherwise it keeps the type and the
    offsets of the entity; among the word indices referenced by the span,
    only those of words that exist and carry a box of 4 entries count.  With
    none of them the entity comes back as it was given; with some, its words
    are their texts in ascending index order and its box covers the box of
    every one of them, also when the boxes are not in pixel units. *)
Theorem map_entity_to_words_any_words
    (e : entity) (m : gmap Z nat) (words : list word) :
  (is_Some (_map_entity_to_words e m words) ↔
   ∃ a b, e_start e = Some (PyInt a) ∧ e_end e = Some (PyInt b)) ∧
  ∀ a b, e_start e = Some (PyInt a) → e_end e = Some (PyInt b) →
    ∃ e' boxed,
      _map_entity_to_words e m words = Some e' ∧
      e_entity e' = e_entity e ∧ e_start e' = e_start e ∧ e_end e' = e_end e ∧
      StronglySorted lt boxed ∧
      (∀ i, i ∈ boxed ↔ referenced m a b i ∧ is_Some (word_box words i)) ∧
      (boxed = [] → e' = e) ∧
      (boxed ≠ [] →
       e_words e' = Some (texts_of words boxed) ∧
       ∃ X Y W H, e_bbox e' = Some [X; Y; W; H] ∧
         ∀ i bx, referenced m a b i → word_box words i = Some bx →
                 covers (X, Y, W, H) bx).
Proof.
  split.
  - unfold _map_entity_to_words. split.
    + intros [e' He'].
      destruct (e_start e) as [[|a|]|]; try done.
      destruct (e_end e) as [[|b|]|]; try done. eauto.
    + intros (a & b & -> & ->). simpl.
      destruct (bool_decide _); [done|].
      simpl. repeat case_match; done.
  - intros a b Ha Hb. rewrite (map_entity_to_words_unfold e m words a b Ha Hb).
    destruct (sorted_word_indices m a b) as [Hsorted Hmem].
    set (idxs := merge_sort le (elements (word_indices m a b))) in *.
    set (boxed := filter (λ i, is_Some (word_box words i)) idxs).
    assert (StronglySorted lt boxed) as Hsb.
    { subst boxed. clear Hmem. induction Hsorted as [|i l Hs IH Hi]; [constructor|].
      rewrite filter_cons. destruct (decide _); [|done].
      constructor; [done|]. apply Forall_forall. intros j Hj.
      apply list_elem_of_filter in Hj as [_ Hj]. rewrite Forall_forall in Hi. by apply Hi. }
    assert (∀ i, i ∈ boxed ↔ referenced m a b i ∧ is_Some (word_box words i)) as Hmb.
    { intros i. subst boxed. rewrite list_elem_of_filter, Hmem. tauto. }
    destruct (fold_any_word_boxes words idxs) as (Hw & _ & _ & Hn & Hsome).
    fold boxed in Hw, Hn, Hsome.
    destruct (decide (boxed = [])) as [Hnil|Hne].
    + exists e, boxed.
      assert ((if bool_decide (word_indices m a b = ∅) then Some e
               else
                 let acc := foldl (add_word_box words) box_acc_init idxs in
                 match min_x acc, min_y acc with
                 | Fin X, Fin Y =>
                     Some (set_geometry e [X; Y; max_x acc - X; max_y acc - Y]
                             (entity_words acc))
                 | _, _ => Some e
                 end) = Some e) as ->.
      { destruct (bool_decide _); [done|]. simpl. by destruct (Hn Hnil) as [-> _]. }
      split; [done|]. do 3 (split; [done|]). split; [done|]. split; [done|].
      split; [done|]. by intros ?.
    + rewrite bool_decide_false.
      2: { intros Hempty. apply Hne, elem_of_nil_inv. intros i Hi.
           apply Hmb in Hi as [Hi _]. apply word_indices_spec in Hi.
           rewrite Hempty in Hi. by apply not_elem_of_empty in Hi. }
      simpl. destruct (Hsome Hne) as (X & Y & HX & HY & Hcov). rewrite HX, HY.
      eexists _, boxed. split; [done|]. simpl. do 3 (split; [done|]).
      split; [done|]. split; [done|]. split; [by intros ?|]. intros _.
      split; [by rewrite Hw|]. eexists _, _, _, _. split; [done|].
      intros i bx Hi Hbx. apply (Hcov i bx); [by apply Hmem|done].
Qed.

Lemma map_entity_to_words_any_words_witness :
  ∃ e' boxed,
    _map_entity_to_words greeting_entity
      (_create_char_to_word_map (lit "Hello World") hello_world) hello_world = Some e' ∧
    e_entity e' = e_entity greeting_entity ∧
    e_start e' = e_start greeting_entity ∧ e_end e' = e_end greeting_entity ∧
    StronglySorted lt boxed ∧
    (∀ i, i ∈ boxed ↔
          referenced (_create_char_to_word_map (lit "Hello World") hello_world) 1 6 i
          ∧ is_Some (word_box hello_world i)) ∧
    (boxed = [] → e' = greeting_entity) ∧
    (boxed ≠ [] →
     e_words e' = Some (texts_of hello_world boxed) ∧
     ∃ X Y W H, e_bbox e' = Some [X; Y; W; H] ∧
       ∀ i bx, referenced (_create_char_to_word_map (lit "Hello World") hello_world) 1 6 i →
               word_box hello_world i = Some bx → covers (X, Y, W, H) bx).
Proof.
  exact (proj2 (map_entity_to_words_any_words greeting_entity
                  (_create_char_to_word_map (lit "Hello World") hello_world) hello_world)
           1 6 eq_refl eq_refl).
Defined.

(** ** Text redaction: entities without offsets, overlapping entities *)

Lemma redact_loop_skip_all t l :
  Forall lacks_offset l → redact_loop t l = Some t.
Proof.
  induction 1 as [|e l He _ IH]; [done|].
  simpl. rewrite (redact_entity_skip t e He). simpl. apply IH.
Qed.

(** X3: entities that all lack an offset leave the text as it is, whether
    the sort of the entities raises or not; so does the empty list. *)
Theorem redact_text_without_offsets (text : str) (es : list entity) :
  Forall lacks_offset es → redact_text_entities text es = text.
Proof.
  intros H. unfold redact_text_entities, redact_text_try, sorted_entities.
  destruct (sortable _); [|done]. simpl.
  rewrite redact_loop_skip_all; [done|].
  by rewrite stable_sort_perm.
Qed.

Lemma redact_text_without_offsets_witness :
  redact_text_entities (lit "SSN 123-45-6789 end") [bare_entity; bare_entity]
  = lit "SSN 123-45-6789 end".
Proof.
  apply redact_text_without_offsets.
  repeat constructor; by left.
Defined.

(** [(l + k)[n:] = k[n - len(l):]] behind the seam. *)
Lemma slice_from_app_behind {A} (l k : list A) n :
  len l ≤ n → slice_from (l ++ k) n = slice_from k (n - len l).
Proof.
  intros Hn. unfold slice_from, slice_index. rewrite len_app.
  pose proof (len_nonneg l). pose proof (len_nonneg k).
  destruct (Z.ltb_spec n 0); [lia|]. destruct (Z.ltb_spec (n - len l) 0); [lia|].
  rewrite drop_app_ge by (unfold len in *; lia). f_equal. unfold len in *. lia.
Qed.

Lemma slice_from_app_front {A} (l k : list A) n :
  0 ≤ n → n ≤ len l → slice_from (l ++ k) n = slice_from l n ++ k.
Proof.
  intros. pose proof (len_nonneg k).
  rewrite !slice_from_inside by (rewrite ?len_app; lia).
  apply drop_app_le. unfold len in *. lia.
Qed.

Lemma slice_to_slice_to {A} (s : list A) a b :
  0 ≤ a → a ≤ b → b ≤ len s → slice_to (slice_to s b) a = slice_to s a.
Proof.
  intros. rewrite (slice_to_inside (slice_to s b)) by (rewrite ?len_slice_to by lia; lia).
  rewrite !slice_to_inside by lia. rewrite take_take. f_equal. lia.
Qed.

(** The order of two entities with different integer start offsets. *)
Lemma sorted_entities_pair e1 e2 s1 t1 s2 t2 :
  has_span e1 s1 t1 → has_span e2 s2 t2 → s1 < s2 →
  sorted_entities [e1; e2] = Some [e2; e1] ∧ sorted_entities [e2; e1] = Some [e2; e1].
Proof.
  intros [H1 _] [H2 _] Hlt. unfold sorted_entities, sortable, start_key. simpl.
  rewrite H1, H2. simpl.
  destruct (Z.ltb_spec s1 s2); [|lia]. destruct (Z.ltb_spec s2 s1); [lia|]. done.
Qed.

#[local] Opaque redaction_marker.

(** X4: two entities that overlap.  With [s1 < s2 <= t1] the entity that
    starts later is spliced first, and the end offset [t1] of the other one
    then counts characters of the working copy, which holds the marker of the
    first splice: the result is [text[:s1]], the marker of the outer entity,
    and the rest of the working copy from [t1] on, in either order of the
    list.  When the overlap [t1 - s2] is not longer than the marker of the
    inner entity, all of [text[t2:]] is kept behind a piece of that marker:
    for an entity nested in the other one ([t2 < t1]) the characters
    [text[t2:t1]] of the outer span stay in the result. *)
Theorem redact_text_overlapping
    (text : str) (e1 e2 : entity) (s1 t1 s2 t2 : Z) :
  has_span e1 s1 t1 → has_span e2 s2 t2 →
  0 ≤ s1 → s1 < s2 → s2 ≤ t1 → s2 ≤ t2 → t2 ≤ len text →
  redact_text_entities text [e1; e2] = redact_text_entities text [e2; e1] ∧
  redact_text_entities text [e1; e2]
  = slice_to text s1 ++ redaction_marker e1
      ++ slice_from (redaction_marker e2 ++ slice_from text t2) (t1 - s2) ∧
  (t1 - s2 ≤ len (redaction_marker e2) →
   redact_text_entities text [e1; e2]
   = slice_to text s1 ++ redaction_marker e1
       ++ slice_from (redaction_marker e2) (t1 - s2) ++ slice_from text t2).
Proof.
  intros H1 H2 Hs1 Hlt Hov Hs2 Ht2.
  destruct (sorted_entities_pair e1 e2 s1 t1 s2 t2 H1 H2 Hlt) as [E12 E21].
  unfold redact_text_entities, redact_text_try. rewrite E12, E21.
  split; [done|]. simpl.
  rewrite (redact_entity_span text e2 s2 t2 H2). simpl.
  rewrite (redact_entity_span _ e1 s1 t1 H1). simpl.
  assert (len (slice_to text s2) = s2) as Hlen by (apply len_slice_to; lia).
  rewrite slice_to_app_seam by lia.
  rewrite slice_to_slice_to by lia.
  rewrite slice_from_app_behind by lia. rewrite Hlen.
  split; [done|]. intros Hshort.
  by rewrite (slice_from_app_front (redaction_marker e2)) by lia.
Qed.

#[local] Transparent redaction_marker.

Lemma redact_text_overlapping_witness :
  redact_text_entities (lit "John Smith, 12 Main St") [outer_entity; inner_entity]
  = lit "[REDACTED_ADDRESS]N], 12 Main St".
Proof.
  destruct (redact_text_overlapping (lit "John Smith, 12 Main St")
              outer_entity inner_entity 0 20 5 10) as (_ & _ & H);
    [done|done|lia|lia|lia|lia|by vm_compute|].
  rewrite H; [reflexivity|by vm_compute].
Defined.

(** ** Image redaction: the recorded areas *)



(** ** The redaction engine: redacted texts, the OCR result of the pipeline *)

Lemma redact_page_text lib doc ocr w i entry :
  (redact_page lib doc ocr w i entry).1.1.2
  = text_entry (redact_page lib doc ocr w i entry).1.1.1.
Proof.
  page_guards entry ltac:(done).
  destruct (pp_entities pp) as [|e es] eqn:Ees.
  { by destruct (find_page op_page_num pages _ ≫= op_text). }
  by destruct (redact_image lib w (dp_temp_path doc_page) (e :: es) "black") as [[p areas] w'].
Qed.

(** Where a redacted text comes from. *)
Lemma redact_page_text_source lib doc ocr w i entry t :
  rp_redacted_text (redact_page lib doc ocr w i entry).1.1.1 = Some t →
  rp_status (redact_page lib doc ocr w i entry).1.1.1 = "success"%string ∧
  ∃ pp ocr_pages op text,
    entry = PiiDict pp ∧ pp_entities pp ≠ [] ∧
    or_pages ocr = PageList ocr_pages ∧
    find_page op_page_num ocr_pages (Z.of_nat i + 1) = Some op ∧
    op_text op = Some text ∧
    t = redact_text_entities text (pp_entities pp).
Proof.
  page_guards entry ltac:(done).
  destruct (pp_entities pp) as [|e es] eqn:Ees.
  { by destruct (find_page op_page_num pages _ ≫= op_text). }
  destruct (redact_image lib w (dp_temp_path doc_page) (e :: es) "black") as [[p areas] w'].
  simpl. destruct (find_page op_page_num pages _) as [op|] eqn:Eop; [|done]. simpl.
  destruct (op_text op) as [text|] eqn:Etext; [|done]. intros [= <-].
  split; [done|]. exists pp, pages, op, text. by rewrite Ees.
Qed.

Lemma engine_loop_texts lib doc ocr w es :
  redacted_texts (engine_loop lib doc ocr w es)
  = omap text_entry (redacted_pages (engine_loop lib doc ocr w es)).
Proof.
  induction es as [|e0 es IH] using rev_ind; [done|].
  rewrite engine_loop_snoc. set (st := engine_loop lib doc ocr w es) in *.
  unfold engine_step. simpl.
  pose proof (redact_page_text lib doc ocr (files st) (length es) e0) as Ht.
  destruct (redact_page lib doc ocr (files st) (length es) e0) as [[[page text] count] w'].
  simpl in *. rewrite omap_app, IH, Ht. simpl. by destruct (text_entry page).
Qed.

Lemma process_document_texts lib w doc ocr pii n total pages texts :
  (process_document lib w doc ocr pii).1 = RedactionSuccess n total pages texts →
  texts = redacted_texts (engine_loop lib doc ocr w (pr_results pii)).
Proof.
  unfold process_document. destruct (_ || _); simpl; [done|]. by intros [= <- <- <- <-].
Qed.

(** X6: the list [redacted_texts] of the engine repeats, in page order, the
    [redacted_text] of the entries of [redacted_pages] that have one, with
    their page numbers.  An entry has one only if it is a success, its PII
    page has entities and the OCR result has a page of that number with a
    text; it then holds the text redaction of that OCR text with the entities
    of the PII page. *)
Theorem redacted_texts_follow_pages lib w doc ocr pii n total pages texts :
  (process_document lib w doc ocr pii).1 = RedactionSuccess n total pages texts →
  texts = omap (λ p, (λ t, (rp_page_num p, t)) <$> rp_redacted_text p) pages ∧
  ∀ i p t, pages !! i = Some p → rp_redacted_text p = Some t →
    rp_status p = "success"%string ∧ rp_page_num p = Z.of_nat i + 1 ∧
    ∃ pp ocr_pages op text,
      pr_results pii !! i = Some (PiiDict pp) ∧ pp_entities pp ≠ [] ∧
      or_pages ocr = PageList ocr_pages ∧
      find_page op_page_num ocr_pages (Z.of_nat i + 1) = Some op ∧
      op_text op = Some text ∧
      t = redact_text_entities text (pp_entities pp).
Proof.
  intros H. pose proof (process_document_texts _ _ _ _ _ _ _ _ _ H) as ->.
  apply process_document_inv in H as (-> & _ & _).
  split; [apply engine_loop_texts|].
  destruct (engine_loop_invariant lib doc ocr w (pr_results pii)) as (IL & _ & _ & IP).
  intros i p t Hp Ht.
  destruct (lookup_lt_is_Some_2 (pr_results pii) i) as [e He].
  { rewrite <-IL. by eapply lookup_lt_Some. }
  destruct (IP i e He) as (wi & _ & _ & Hpage).
  rewrite Hp in Hpage. injection Hpage as ->.
  destruct (redact_page_text_source _ _ _ _ _ _ _ Ht)
    as (Hs & pp & ocr_pages & op & text & -> & ?).
  split; [done|]. split; [apply redact_page_basic|].
  by exists pp, ocr_pages, op, text.
Qed.

Lemma redacted_texts_follow_pages_witness :
  ∃ p1 p2 p3,
    result_pages
      (process_document strict_imaging three_files three_pages three_texts three_findings).1
    = [p1; p2; p3] ∧
    omap (λ p, (λ t, (rp_page_num p, t)) <$> rp_redacted_text p) [p1; p2; p3]
    = [(1, lit "[REDACTED_ID] [REDACTED_SSN] end");
       (3, lit "[REDACTED_ID] [REDACTED_SSN] end")].
Proof.
  destruct (redacted_texts_follow_pages strict_imaging three_files three_pages three_texts
              three_findings _ _ _ _ eq_refl) as [H _].
  eexists _, _, _. split; [reflexivity|]. symmetry. exact H.
Defined.

(** One page against an OCR result that holds a number under [pages]. *)
Lemma redact_page_counted lib doc ocr w i entry n :
  or_pages ocr = PageCount n →
  ∃ msg, redact_page lib doc ocr w i entry = (error_page (Z.of_nat i + 1) msg, None, 0, w) ∧
    ∀ pp, entry = PiiDict pp → pp_status pp = Some "success"%string →
      is_Some (find_page dp_page_num (dd_processed_pages doc) (Z.of_nat i + 1)) →
      msg = "Redaction error: 'int' object is not iterable"%string.
Proof.
  intros Hn. unfold redact_page, redact_page_try.
  destruct entry as [pp|].
  2: { eexists. split; [done|]. by intros pp [=]. }
  unfold is_success.
  destruct (bool_decide_reflect (pp_status pp = Some "success"%string)) as [Hs|Hs]; simpl.
  2: { eexists. split; [done|]. by intros ? [= <-] ?. }
  destruct (find_page dp_page_num _ _) as [doc_page|] eqn:Edoc.
  2: { eexists. split; [done|]. by intros ? _ _ [? ?]. }
  rewrite Hn. eexists. split; [done|]. done.
Qed.

Lemma engine_loop_counted lib doc ocr w es n :
  or_pages ocr = PageCount n →
  ∃ pages,
    engine_loop lib doc ocr w es
    = {| redacted_pages := pages; total_redactions := 0; redacted_texts := []; files := w |} ∧
    length pages = length es ∧
    ∀ i entry, es !! i = Some entry →
      pages !! i = Some (redact_page lib doc ocr w i entry).1.1.1.
Proof.
  intros Hn. induction es as [|e0 es IH] using rev_ind.
  { exists []. split; [done|]. split; [done|]. by intros i e. }
  destruct IH as (pages & Hst & Hlen & Hp).
  rewrite engine_loop_snoc, Hst. unfold engine_step. simpl.
  destruct (redact_page_counted lib doc ocr w (length es) e0 n Hn) as (msg & Hpage & _).
  rewrite Hpage. simpl. eexists. split; [done|].
  split; [rewrite !length_app; simpl; lia|].
  intros i entry Hi. destruct (decide (i = length es)) as [->|Hne].
  - rewrite list_lookup_middle in Hi by done. injection Hi as <-.
    rewrite list_lookup_middle by done. by rewrite Hpage.
  - assert (i < length es)%nat as Hlt.
    { apply lookup_lt_Some in Hi. rewrite length_app in Hi. simpl in Hi. lia. }
    rewrite lookup_app_l in Hi by done. rewrite lookup_app_l by lia. by apply Hp.
Qed.

(** X7: the OCR stage stores the number of pages under the key [pages] of
    its result, where the engine looks for the list of pages.  With such an
    OCR result the engine redacts nothing: the document is a success with 0
    redactions and no redacted text, no file is made, and every page entry
    is an error without image, text or areas; the entry of a page that has
    a PII result and a source page says that an [int] is not iterable. *)
Theorem counted_pages_redact_nothing lib w doc ocr pii n :
  is_success (dd_status doc) = true → is_success (or_status ocr) = true →
  is_success (pr_status pii) = true → or_pages ocr = PageCount n →
  ∃ pages,
    process_document lib w doc ocr pii
    = (RedactionSuccess (len (pr_results pii)) 0 pages [], w) ∧
    length pages = length (pr_results pii) ∧
    Forall (λ p, rp_status p = "error"%string ∧ rp_redacted_text p = None ∧
                 rp_redacted_path p = None ∧ rp_redacted_areas p = None) pages ∧
    ∀ i pp, pr_results pii !! i = Some (PiiDict pp) →
      pp_status pp = Some "success"%string →
      is_Some (find_page dp_page_num (dd_processed_pages doc) (Z.of_nat i + 1)) →
      pages !! i
      = Some (error_page (Z.of_nat i + 1) "Redaction error: 'int' object is not iterable").
Proof.
  intros H1 H2 H3 Hn. rewrite (process_document_success lib w doc ocr pii H1 H2 H3).
  destruct (engine_loop_counted lib doc ocr w (pr_results pii) n Hn) as (pages & -> & Hlen & Hp).
  simpl. exists pages. split; [by unfold len; rewrite Hlen|]. split; [done|]. split.
  - apply Forall_forall. intros p Hin. apply list_elem_of_lookup in Hin as [i Hi].
    destruct (lookup_lt_is_Some_2 (pr_results pii) i) as [e He].
    { rewrite <-Hlen. by eapply lookup_lt_Some. }
    rewrite (Hp i e He) in Hi. injection Hi as <-.
    destruct (redact_page_counted lib doc ocr w i e n Hn) as (msg & -> & _). done.
  - intros i pp Hi Hs Hd. rewrite (Hp i _ Hi).
    destruct (redact_page_counted lib doc ocr w i (PiiDict pp) n Hn) as (msg & -> & Hmsg).
    simpl. by rewrite (Hmsg pp eq_refl Hs Hd).
Qed.

Lemma counted_pages_redact_nothing_witness :
  ∃ pages,
    process_document strict_imaging three_files three_pages counted_texts three_findings
    = (RedactionSuccess 3 0 pages [], three_files) ∧
    pages !! 0%nat
    = Some (error_page 1 "Redaction error: 'int' object is not iterable").
Proof.
  destruct (counted_pages_redact_nothing strict_imaging three_files three_pages counted_texts
              three_findings 3 eq_refl eq_refl eq_refl eq_refl) as (pages & H & _ & _ & Hp).
  exists pages. split; [exact H|].
  apply (Hp 0%nat _ eq_refl eq_refl). by eexists.
Defined.

(** ** The redaction report *)

Lemma report_fold (init : report) (pages : list redacted_page) :
  foldl (λ report page,
           match report_page page with
           | Some page_report =>
               {| report_summary_of := report_summary_of report;
                  report_pages := report_pages report ++ [page_report] |}
           | None => report
           end) init pages
  = {| report_summary_of := report_summary_of init;
       report_pages := report_pages init ++ omap report_page pages |}.
Proof.
  revert init. induction pages as [|p pages IH]; intros init; simpl.
  { rewrite app_nil_r. by destruct init. }
  rewrite IH. destruct (report_page p); simpl; [|done].
  by rewrite <-app_assoc.
Qed.

Lemma build_report_spec r s :
  report_summary_of (build_report r s)
  = {| sum_total_pages := len (result_pages r);
       sum_total_redactions := result_total r;
       sum_sensitivity := default "unknown"%string (ps_sensitivity s);
       sum_entity_types := default ∅ (ps_entity_types s);
       sum_entity_count := default 0 (ps_entity_count s) |} ∧
  report_pages (build_report r s) = omap report_page (result_pages r).
Proof. unfold build_report. by rewrite report_fold. Qed.

(** The entry of a page: its [redactions] count its areas, and an entry
    that is not a success has no area. *)
Lemma redact_page_redactions lib doc ocr w i entry :
  let p := (redact_page lib doc ocr w i entry).1.1.1 in
  default 0 (rp_redactions p) = len (areas_of p) ∧
  (rp_status p ≠ "success"%string → areas_of p = []).
Proof.
  page_guards entry ltac:(done).
  destruct (pp_entities pp) as [|e es] eqn:Ees; [done|].
  by destruct (redact_image lib w (dp_temp_path doc_page) (e :: es) "black") as [[p areas] w'].
Qed.

Lemma sum_redactions_report pages :
  Forall (λ p, default 0 (rp_redactions p) = len (areas_of p) ∧
               (rp_status p ≠ "success"%string → areas_of p = [])) pages →
  sum_redactions (omap report_page pages) = sum_of_areas pages ∧
  Forall (λ pr, rpt_redactions pr = len (rpt_redacted_areas pr)) (omap report_page pages).
Proof.
  unfold sum_redactions, sum_of_areas.
  induction 1 as [|p pages [Hp1 Hp2] _ [IH1 IH2]]; [done|].
  csimpl. destruct (report_page p) as [pr|] eqn:E; unfold report_page in E;
    destruct (bool_decide_reflect (rp_status p = "success"%string)) as [Hs|Hs];
    simplify_eq; csimpl.
  - rewrite IH1. split; [by rewrite Hp1|]. by constructor.
  - rewrite IH1, (Hp2 Hs). split; [unfold len; simpl; lia|done].
Qed.

(** X8: the report made from a result of the redaction engine.  Its pages
    are the entries of the success pages of the result, in order; its
    [total_pages] counts all the PII page entries, also the failed ones; on
    every page of the report [redactions] is the number of its
    [redacted_areas], and the [total_redactions] of the summary is the sum of
    the [redactions] of the pages of the report.  When the report cannot be
    written the function returns an error. *)
Theorem report_of_engine_result
    (write : string → report → option string) lib w doc ocr pii
    (summary : pii_summary) (path : string) n total pages texts :
  (process_document lib w doc ocr pii).1 = RedactionSuccess n total pages texts →
  (∀ e, write path (build_report (RedactionSuccess n total pages texts) summary) = Some e →
        create_redaction_report write (RedactionSuccess n total pages texts) summary path
        = ReportError ("Error creating redaction report: " +:+ e)) ∧
  (write path (build_report (RedactionSuccess n total pages texts) summary) = None →
   ∃ r, create_redaction_report write (RedactionSuccess n total pages texts) summary path
        = ReportSuccess path r ∧
     report_pages r = omap report_page pages ∧
     sum_total_pages (report_summary_of r) = len (pr_results pii) ∧
     sum_total_redactions (report_summary_of r) = sum_redactions (report_pages r) ∧
     Forall (λ pr, rpt_redactions pr = len (rpt_redacted_areas pr)) (report_pages r)).
Proof.
  intros H. unfold create_redaction_report. split; [by intros e ->|]. intros ->.
  eexists. split; [done|].
  destruct (build_report_spec (RedactionSuccess n total pages texts) summary) as [-> ->].
  simpl.
  apply process_document_inv in H as (-> & -> & _).
  destruct (engine_loop_invariant lib doc ocr w (pr_results pii)) as (IL & IT & _ & IP).
  destruct (sum_redactions_report (redacted_pages (engine_loop lib doc ocr w (pr_results pii))))
    as [Hsum Hall].
  { apply Forall_forall. intros p Hin. apply list_elem_of_lookup in Hin as [i Hi].
    destruct (lookup_lt_is_Some_2 (pr_results pii) i) as [e He].
    { rewrite <-IL. by eapply lookup_lt_Some. }
    destruct (IP i e He) as (wi & _ & _ & Hpage).
    rewrite Hi in Hpage. injection Hpage as ->. apply redact_page_redactions. }
  split; [done|]. split; [by unfold len; rewrite IL|]. split; [by rewrite Hsum|done].
Qed.

Lemma report_of_engine_result_witness :
  ∃ r, create_redaction_report write_always
         (process_document strict_imaging three_files three_pages three_texts three_findings).1
         {| ps_sensitivity := Some "high"%string; ps_entity_types := None;
            ps_entity_count := Some 6 |}
         "report.json"
       = ReportSuccess "report.json" r ∧
       rpt_page_num <$> report_pages r = [1; 3] ∧
       sum_total_pages (report_summary_of r) = 3 ∧
       sum_total_redactions (report_summary_of r) = sum_redactions (report_pages r).
Proof.
  destruct (report_of_engine_result write_always strict_imaging three_files three_pages
              three_texts three_findings
              {| ps_sensitivity := Some "high"%string; ps_entity_types := None;
                 ps_entity_count := Some 6 |}
              "report.json" _ _ _ _ eq_refl) as [_ H].
  destruct (H eq_refl) as (r & Hr & Hp & Ht & Hs & _).
  exists r. split; [exact Hr|]. split; [by rewrite Hp|]. split; [exact Ht|exact Hs].
Defined.

(** ** Grouping into the lists of a dictionary *)

(** Appending one element to the list of a key adds one to the total. *)
Lemma grouped_total_append {A} (m : gmap Z (list A)) (k : Z) (x : A) :
  grouped_total (<[k := default [] (m !! k) ++ [x]]> m) = grouped_total m + 1.
Proof.
  unfold grouped_total. destruct (m !! k) as [l|] eqn:E; simpl.
  - rewrite <-(insert_delete_eq m).
    rewrite map_to_list_insert by apply lookup_delete_eq.
    rewrite <-(map_to_list_delete m k l E). simpl. rewrite length_app. simpl. lia.
  - rewrite map_to_list_insert by done. simpl. lia.
Qed.

Lemma group_by_page_spec entities :
  dom (group_by_page entities) = page_numbers entities ∧
  grouped_total (group_by_page entities) = len entities.
Proof.
  unfold group_by_page, page_numbers.
  induction entities as [|e entities [Hdom Htotal]] using rev_ind; [done|].
  rewrite foldl_app, fmap_app, list_to_set_app_L. simpl.
  rewrite dom_insert_L, grouped_total_append, Hdom, Htotal, len_app.
  split; [|unfold len; simpl; lia].
  rewrite union_empty_r_L. apply union_comm_L.
Qed.

(** X9: PDF redaction answers with an error when neither PDF library is
    there or when the copy of the file fails.  Otherwise it is a success that
    reports as [total_redactions] the number of entities it was given and as
    [pages_processed] the number of different page numbers among them (a
    missing number counts as page 0), whatever the pages of the document
    are. *)
Theorem redact_pdf_counts
    (libs : pdf_libraries) (copy : string → string → option string)
    (pdf_path : string) (entities : list paged_entity) (output_path : string) :
  (pypdf2_available libs = false → pikepdf_available libs = false →
   redact_pdf libs copy pdf_path entities output_path
   = PdfError "PDF redaction libraries are not available") ∧
  (pypdf2_available libs = true ∨ pikepdf_available libs = true →
   (∀ e, copy pdf_path output_path = Some e →
      redact_pdf libs copy pdf_path entities output_path
      = PdfError ("Error redacting PDF: " +:+ e)) ∧
   (copy pdf_path output_path = None →
      redact_pdf libs copy pdf_path entities output_path
      = PdfSuccess output_path (Z.of_nat (size (page_numbers entities))) (len entities))).
Proof.
  unfold redact_pdf. split; [by intros -> ->|]. intros Hlib.
  assert (negb (pypdf2_available libs) && negb (pikepdf_available libs) = false) as ->.
  { destruct Hlib as [-> | ->]; [done|]. by rewrite andb_false_r. }
  split; [by intros e ->|]. intros ->.
  destruct (group_by_page_spec entities) as [Hdom Htotal].
  by rewrite <-Hdom, size_dom, Htotal.
Qed.

Lemma redact_pdf_counts_witness :
  redact_pdf {| pypdf2_available := false; pikepdf_available := true |} (λ _ _, None)
    "in.pdf" paged_entities "out.pdf"
  = PdfSuccess "out.pdf" 2 3.
Proof.
  destruct (redact_pdf_counts {| pypdf2_available := false; pikepdf_available := true |}
              (λ _ _, None) "in.pdf" paged_entities "out.pdf") as [_ H].
  destruct (H (or_intror eq_refl)) as [_ H']. exact (H' eq_refl).
Defined.

(** ** PII detection on a document *)

Lemma enumerate_lookup {A} (l : list A) i :
  enumerate l !! i = (λ x, (i, x)) <$> l !! i.
Proof.
  unfold enumerate. rewrite lookup_zip_with.
  destruct (l !! i) as [x|] eqn:E; simpl.
  - rewrite lookup_seq_lt by (by eapply lookup_lt_Some). done.
  - by destruct (seq 0 (length l) !! i).
Qed.

Lemma length_enumerate {A} (l : list A) : length (enumerate l) = length l.
Proof. unfold enumerate. rewrite length_zip_with, length_seq. lia. Qed.

Lemma foldl_snoc_fmap {A B} (f : A → B) (init : list B) (l : list A) :
  foldl (λ acc x, acc ++ [f x]) init l = init ++ (f <$> l).
Proof.
  revert init. induction l as [|x l IH]; intros init; simpl; [by rewrite app_nil_r|].
  by rewrite IH, <-app_assoc.
Qed.

Lemma map_entity_to_words_is_Some e m words :
  is_Some (_map_entity_to_words e m words) ↔ int_span e.
Proof.
  unfold _map_entity_to_words, int_span, has_span. split.
  - intros [e' He'].
    destruct (e_start e) as [[|a|]|]; try done.
    destruct (e_end e) as [[|b|]|]; try done. eauto.
  - intros (a & b & -> & ->). simpl.
    destruct (bool_decide _); [done|]. simpl. repeat case_match; done.
Qed.

Lemma map_entity_to_words_fields e m words e' :
  _map_entity_to_words e m words = Some e' →
  e_entity e' = e_entity e ∧ e_start e' = e_start e ∧ e_end e' = e_end e.
Proof.
  unfold _map_entity_to_words.
  destruct (e_start e ≫= as_index) as [a|]; [|done]. simpl.
  destruct (e_end e ≫= as_index) as [b|]; [|done]. simpl.
  destruct (bool_decide _); [by intros [= <-]|]. simpl.
  repeat case_match; by intros [= <-].
Qed.

(** The loop over the detections: it ends well exactly when every
    detection has integer offsets, and then maps them one by one. *)
Lemma map_entities_inr m words es l :
  map_entities m words es = inr l ↔
  Forall2 (λ d e, _map_entity_to_words d m words = Some e) es l.
Proof.
  revert l. induction es as [|d es IH]; intros l; simpl.
  - split; [intros [= <-]; constructor|]. by intros ->%Forall2_nil_inv_l.
  - destruct (_map_entity_to_words d m words) as [e|] eqn:Ed.
    + destruct (map_entities m words es) as [msg|l'] eqn:El.
      * split; [done|]. intros (e' & l'' & _ & Hl & _)%Forall2_cons_inv_l.
        by apply IH in Hl.
      * split.
        -- intros [= <-]. constructor; [done|]. by apply IH.
        -- intros (e' & l'' & He & Hl & ->)%Forall2_cons_inv_l.
           apply IH in Hl. by simplify_eq.
    + split; [done|]. intros (e' & l'' & He & _)%Forall2_cons_inv_l. congruence.
Qed.

Lemma map_entities_ok m words es :
  Forall int_span es → ∃ l, map_entities m words es = inr l.
Proof.
  induction 1 as [|d es Hd _ [l IH]]; [by exists []|].
  apply (map_entity_to_words_is_Some d m words) in Hd as [e He].
  exists (e :: l). simpl. by rewrite He, IH.
Qed.

Lemma map_entities_fails m words es e :
  first_malformed es e → map_entities m words es = inl (map_entity_error e).
Proof.
  intros (l1 & l2 & -> & Hl1 & He).
  induction Hl1 as [|d l1 Hd _ IH]; simpl.
  - destruct (_map_entity_to_words e m words) eqn:E; [|done].
    destruct He. apply (map_entity_to_words_is_Some e m words). by eexists.
  - apply (map_entity_to_words_is_Some d m words) in Hd as [e' ->]. by rewrite IH.
Qed.

Lemma detect_pii_in_doc_fmap detect_pii ocr_results :
  ocr_results ≠ [] →
  detect_pii_in_doc detect_pii ocr_results
  = (λ ip, detect_page detect_pii ip.1 ip.2) <$> enumerate ocr_results.
Proof.
  intros Hne. unfold detect_pii_in_doc. destruct ocr_results; [done|].
  by rewrite (foldl_snoc_fmap (λ ip, detect_page detect_pii ip.1 ip.2)).
Qed.

Lemma detect_pii_in_doc_lookup detect_pii ocr_results i page :
  ocr_results !! i = Some page →
  detect_pii_in_doc detect_pii ocr_results !! i = Some (detect_page detect_pii i page).
Proof.
  intros Hi. rewrite detect_pii_in_doc_fmap by (by intros ->).
  by rewrite list_lookup_fmap, enumerate_lookup, Hi.
Qed.

(** A page that is analysed: the three ways out of the loop body. *)
Lemma detect_page_analysed detect_pii i page :
  analysed page →
  (page_words page = [] →
   detect_page detect_pii i page
   = {| ppr_page_num := Z.of_nat i + 1; ppr_status := "success"; ppr_message := None;
        ppr_entities := Some (detections detect_pii page);
        ppr_entity_count := Some (len (detections detect_pii page)) |}) ∧
  (page_words page ≠ [] →
   (∀ l, map_entities (page_map page) (page_words page) (detections detect_pii page) = inr l →
      detect_page detect_pii i page
      = {| ppr_page_num := Z.of_nat i + 1; ppr_status := "success"; ppr_message := None;
           ppr_entities := Some l; ppr_entity_count := Some (len l) |}) ∧
   (∀ msg, map_entities (page_map page) (page_words page) (detections detect_pii page)
           = inl msg →
      detect_page detect_pii i page
      = pii_note (Z.of_nat i + 1) "error" ("PII detection error: " +:+ msg))).
Proof.
  intros [Hs Hb]. unfold detect_page, detect_page_try, is_success, page_map, page_words,
    detections.
  rewrite Hs, Hb. simpl. split.
  - by intros ->.
  - intros Hw. destruct (default [] (opr_words page)) as [|w ws] eqn:E; [done|].
    split; [by intros l ->|by intros msg ->].
Qed.

(** X10: PII detection on the pages of a document.  Without pages the
    result is one error entry with page number 0.  Otherwise there is one
    entry for every page, in order, numbered from 1, and the entry of a page
    depends on that page only: an error when the OCR of the page is not a
    success, a warning when its text is blank, and for a page that is
    analysed a success when the page has no words or when every detection
    has integer offsets, and an error that names the first detection without
    integer offsets otherwise. *)
Theorem detect_pii_in_doc_pages
    (detect_pii : str → list entity) (ocr_results : list ocr_page_result) :
  detect_pii_in_doc detect_pii [] = [pii_note 0 "error" "No OCR results provided"] ∧
  (ocr_results ≠ [] →
   length (detect_pii_in_doc detect_pii ocr_results) = length ocr_results) ∧
  ∀ i page, ocr_results !! i = Some page →
    ∃ r, detect_pii_in_doc detect_pii ocr_results !! i = Some r ∧
      ppr_page_num r = Z.of_nat i + 1 ∧
      (opr_status page ≠ Some "success"%string →
       r = pii_note (Z.of_nat i + 1) "error"
             ("OCR failed for this page: "
                +:+ default "Unknown error"%string (opr_message page))) ∧
      (opr_status page = Some "success"%string →
       blank (default [] (opr_text page)) = true →
       r = pii_note (Z.of_nat i + 1) "warning" "No text found in OCR results") ∧
      (analysed page →
       (page_words page = [] ∨ Forall int_span (detections detect_pii page) →
        ppr_status r = "success"%string) ∧
       (∀ e, page_words page ≠ [] → first_malformed (detections detect_pii page) e →
          r = pii_note (Z.of_nat i + 1) "error"
                ("PII detection error: " +:+ map_entity_error e))).
Proof.
  split; [done|]. split.
  { intros Hne. rewrite detect_pii_in_doc_fmap by done.
    by rewrite length_fmap, length_enumerate. }
  intros i page Hi. exists (detect_page detect_pii i page).
  split; [by apply detect_pii_in_doc_lookup|].
  split; [|split; [|split]].
  - unfold detect_page, detect_page_try.
    destruct (negb _); [done|]. destruct (blank _); [done|].
    by destruct (match default [] (opr_words page) with [] => _ | _ => _ end).
  - intros Hs. unfold detect_page, detect_page_try, is_success.
    by rewrite bool_decide_false by done.
  - intros Hs Hb. unfold detect_page, detect_page_try, is_success. by rewrite Hs, Hb.
  - intros Ha. destruct (detect_page_analysed detect_pii i page Ha) as [Hnone Hsome].
    split.
    + destruct (decide (page_words page = [])) as [Hw|Hw]; [by rewrite (Hnone Hw)|].
      intros [?|Hall]; [done|].
      destruct (map_entities_ok (page_map page) (page_words page) _ Hall) as [l Hl].
      by rewrite (proj1 (Hsome Hw) l Hl).
    + intros e Hw He. apply (proj2 (Hsome Hw)). by apply map_entities_fails.
Qed.

Lemma detect_pii_in_doc_pages_witness :
  ∃ r, detect_pii_in_doc digits_detector scanned_pages !! 1%nat = Some r ∧
       ppr_page_num r = 2 ∧
       r = pii_note 2 "warning" "No text found in OCR results".
Proof.
  destruct (detect_pii_in_doc_pages digits_detector scanned_pages) as (_ & _ & H).
  destruct (H 1%nat _ eq_refl) as (r & Hr & Hn & _ & Hw & _).
  exists r. split; [exact Hr|]. split; [exact Hn|]. by apply Hw.
Defined.

(** X11: a success entry of PII detection keeps the detections of its
    page: the page was analysed, the entry holds one entity for every
    detection, in the order of the detector and with the same type and
    offsets, and [entity_count] is the number of detections.  On a page
    without words the entities are the detections themselves; on a page with
    words each one is the detection after its geometric mapping. *)
Theorem detected_entities_are_kept
    (detect_pii : str → list entity) (ocr_results : list ocr_page_result)
    (i : nat) (page : ocr_page_result) (r : pii_page_result) :
  ocr_results !! i = Some page →
  detect_pii_in_doc detect_pii ocr_results !! i = Some r →
  ppr_status r = "success"%string →
  analysed page ∧
  ∃ es, ppr_entities r = Some es ∧
    ppr_entity_count r = Some (len (detections detect_pii page)) ∧
    Forall2 (λ d e, e_entity e = e_entity d ∧ e_start e = e_start d ∧ e_end e = e_end d)
      (detections detect_pii page) es ∧
    (page_words page = [] → es = detections detect_pii page) ∧
    (page_words page ≠ [] →
     Forall2 (λ d e, _map_entity_to_words d (page_map page) (page_words page) = Some e)
       (detections detect_pii page) es).
Proof.
  intros Hi Hr Hs. rewrite (detect_pii_in_doc_lookup _ _ _ _ Hi) in Hr. injection Hr as <-.
  assert (analysed page) as Ha.
  { unfold detect_page, detect_page_try, analysed, is_success in *.
    destruct (bool_decide_reflect (opr_status page = Some "success"%string)); [|done].
    simpl in Hs. destruct (blank _); [done|]. done. }
  split; [done|].
  destruct (detect_page_analysed detect_pii i page Ha) as [Hnone Hsome].
  destruct (decide (page_words page = [])) as [Hw|Hw].
  - rewrite (Hnone Hw). simpl. eexists. split; [done|]. split; [done|].
    split; [|done]. apply Forall2_same_length_lookup. split; [done|].
    intros ? ? ? ? ?. by simplify_eq.
  - destruct (map_entities (page_map page) (page_words page) (detections detect_pii page))
      as [msg|l] eqn:El.
    { by rewrite (proj2 (Hsome Hw) msg eq_refl) in Hs. }
    rewrite (proj1 (Hsome Hw) l eq_refl). simpl. apply map_entities_inr in El.
    exists l. split; [done|].
    split; [by unfold len; rewrite (Forall2_length _ _ _ El)|].
    split; [|done]. eapply Forall2_impl; [exact El|].
    intros d e Hd. by apply map_entity_to_words_fields in Hd.
Qed.

Lemma detected_entities_are_kept_witness :
  analysed scanned_page ∧
  ∃ es, ppr_entities (detect_page digits_detector 0 scanned_page) = Some es ∧
    ppr_entity_count (detect_page digits_detector 0 scanned_page) = Some 1 ∧
    es = [set_geometry ssn_entity [40; 10; 110; 12] [lit "123-45-6789"]].
Proof.
  destruct (detected_entities_are_kept digits_detector scanned_pages 0 scanned_page
              (detect_page digits_detector 0 scanned_page) eq_refl eq_refl eq_refl)
    as (Ha & es & He & Hc & _ & _ & Hm).
  split; [exact Ha|]. exists es. split; [exact He|]. split; [exact Hc|].
  assert (page_words scanned_page ≠ []) as Hw by done.
  specialize (Hm Hw). vm_compute in He. by injection He as <-.
Defined.

(** ** The sensitivity of a document *)

Lemma sensitivity_of_spec (n : Z) :
  0 ≤ n →
  (sensitivity_of n = "low"%string ↔ n = 0) ∧
  (sensitivity_of n = "medium"%string ↔ 1 ≤ n ≤ 4) ∧
  (sensitivity_of n = "high"%string ↔ 5 ≤ n).
Proof.
  intros Hn. unfold sensitivity_of.
  destruct (Z.eqb_spec n 0); [|destruct (Z.ltb_spec n 5)];
    repeat split; intros; try done; lia.
Qed.

Lemma total_entities_counted results :
  total_entities results = foldr (λ r s, counted r + s) 0 results.
Proof.
  unfold total_entities, counted. induction results as [|r results IH]; [done|].
  simpl. rewrite IH. by destruct (bool_decide _).
Qed.

Lemma detect_page_counted detect_pii i page :
  0 ≤ counted (detect_page detect_pii i page) ≤ found_on detect_pii page ∧
  ((analysed page → page_words page = [] ∨ Forall int_span (detections detect_pii page)) →
   counted (detect_page detect_pii i page) = found_on detect_pii page).
Proof.
  unfold found_on.
  destruct (is_success (opr_status page)) eqn:Es; simpl.
  2: { unfold detect_page, detect_page_try. rewrite Es. simpl. split; [done|done]. }
  destruct (blank (default [] (opr_text page))) eqn:Eb; simpl.
  { unfold detect_page, detect_page_try. rewrite Es, Eb. simpl. split; [done|done]. }
  assert (analysed page) as Ha.
  { split; [|done]. unfold is_success in Es. by apply bool_decide_eq_true in Es. }
  destruct (detect_page_analysed detect_pii i page Ha) as [Hnone Hsome].
  fold (detections detect_pii page).
  pose proof (len_nonneg (detections detect_pii page)).
  destruct (decide (page_words page = [])) as [Hw|Hw].
  { rewrite (Hnone Hw). unfold counted. simpl. split; [lia|done]. }
  destruct (map_entities (page_map page) (page_words page) (detections detect_pii page))
    as [msg|l] eqn:El.
  - rewrite (proj2 (Hsome Hw) msg eq_refl). unfold counted. simpl. split; [lia|].
    intros Hok. destruct (Hok Ha) as [?|Hall]; [done|].
    destruct (map_entities_ok (page_map page) (page_words page) _ Hall) as [l Hl].
    congruence.
  - rewrite (proj1 (Hsome Hw) l eq_refl). unfold counted. simpl.
    apply map_entities_inr, Forall2_length in El. unfold len in *. rewrite <-El.
    split; [lia|done].
Qed.

Lemma total_entities_found detect_pii (ips : list (nat * ocr_page_result)) :
  let results := (λ ip, detect_page detect_pii ip.1 ip.2) <$> ips in
  0 ≤ total_entities results ≤ found_in detect_pii ips.*2 ∧
  ((∀ page, page ∈ ips.*2 → analysed page →
      page_words page = [] ∨ Forall int_span (detections detect_pii page)) →
   total_entities results = found_in detect_pii ips.*2).
Proof.
  simpl. rewrite total_entities_counted. unfold found_in.
  induction ips as [|[i page] ips [IH1 IH2]]; [done|]. csimpl.
  destruct (detect_page_counted detect_pii i page) as [H1 H2].
  split; [lia|]. intros Hok.
  rewrite H2, IH2; [done| |].
  - intros p Hp. apply Hok. by right.
  - apply Hok. by left.
Qed.

Lemma snd_enumerate {A} (l : list A) : (enumerate l).*2 = l.
Proof. unfold enumerate. apply snd_zip. by rewrite length_seq. Qed.

Lemma collect_types_spec results t :
  t ∈ collect_types results ↔
  ∃ r es e, r ∈ results ∧ ppr_status r = "success"%string ∧
            ppr_entities r = Some es ∧ e ∈ es ∧ e_entity e = t.
Proof.
  assert (∀ (es : list entity) (s : gset (option string)),
            t ∈ foldl (λ s e, {[e_entity e]} ∪ s) s es
            ↔ t ∈ s ∨ ∃ e, e ∈ es ∧ e_entity e = t) as Hinner.
  { induction es as [|e es IH]; intros s; simpl.
    - split; [by left|]. intros [?|(e & He & _)]; [done|by apply elem_of_nil in He].
    - rewrite IH, elem_of_union, elem_of_singleton. split.
      + intros [[->|?]|(e' & ? & ?)]; [right|by left|right].
        * exists e. split; [by left|done].
        * exists e'. split; [by right|done].
      + intros [?|(e' & [->|?]%elem_of_cons & ?)]; [by left; right|by left; left|].
        right. by exists e'. }
  unfold collect_types. induction results as [|r results IH] using rev_ind.
  { simpl. split; [by intros ?%not_elem_of_empty|].
    intros (r & _ & _ & Hr & _). by apply elem_of_nil in Hr. }
  rewrite foldl_app. simpl.
  destruct (bool_decide_reflect (ppr_status r = "success"%string)) as [Hs|Hs].
  - rewrite Hinner, IH. split.
    + intros [(r' & es & e & ? & ?)|(e & He & Ht)].
      * exists r', es, e. split; [apply elem_of_app; by left|done].
      * destruct (ppr_entities r) as [es|] eqn:Ees; [|by apply elem_of_nil in He].
        exists r, es, e. split; [apply elem_of_app; right; by left|done].
    + intros (r' & es & e & [?|Hr]%elem_of_app & Hs' & Hes & He & Ht).
      * left. by exists r', es, e.
      * apply list_elem_of_singleton in Hr as ->. right. exists e. by rewrite Hes.
  - rewrite IH. split.
    + intros (r' & es & e & ? & ?). exists r', es, e. split; [apply elem_of_app; by left|done].
    + intros (r' & es & e & [?|Hr]%elem_of_app & Hs' & ?).
      * by exists r', es, e.
      * apply list_elem_of_singleton in Hr as ->. done.
Qed.

(** X12: the PII stage on a document.  It answers with an error when the
    OCR result is not a success.  Otherwise it is a success, also when every
    page failed, and its [entity_count] is the number of entities on its
    success pages: at most the number of detections on the pages that were
    analysed, and exactly that number when no detection on a page with words
    lacks integer offsets.  The sensitivity is low for no entity, medium for
    1 to 4 and high for 5 or more, and the entity types are those of the
    entities of the success pages. *)
Theorem pii_document_sensitivity
    (detect_pii : str → list entity) (ocr_results : ocr_document) :
  (od_status ocr_results ≠ Some "success"%string →
   pii_process_document detect_pii ocr_results
   = PiiError "Cannot process document due to OCR errors") ∧
  (od_status ocr_results = Some "success"%string →
   ∃ sensitivity entity_count entity_types,
     pii_process_document detect_pii ocr_results
     = PiiSuccess (len (detect_pii_in_doc detect_pii (od_results ocr_results)))
         (detect_pii_in_doc detect_pii (od_results ocr_results))
         sensitivity entity_count entity_types ∧
     0 ≤ entity_count ≤ found_in detect_pii (od_results ocr_results) ∧
     ((∀ page, page ∈ od_results ocr_results → analysed page →
         page_words page = [] ∨ Forall int_span (detections detect_pii page)) →
      entity_count = found_in detect_pii (od_results ocr_results)) ∧
     (sensitivity = "low"%string ↔ entity_count = 0) ∧
     (sensitivity = "medium"%string ↔ 1 ≤ entity_count ≤ 4) ∧
     (sensitivity = "high"%string ↔ 5 ≤ entity_count) ∧
     ∀ t, t ∈ entity_types ↔
          ∃ r es e, r ∈ detect_pii_in_doc detect_pii (od_results ocr_results) ∧
                    ppr_status r = "success"%string ∧ ppr_entities r = Some es ∧
                    e ∈ es ∧ e_entity e = t).
Proof.
  unfold pii_process_document, is_success. split.
  { intros Hs. by rewrite bool_decide_false by done. }
  intros ->. simpl. eexists _, _, _. split; [done|].
  assert (0 ≤ total_entities (detect_pii_in_doc detect_pii (od_results ocr_results))
          ≤ found_in detect_pii (od_results ocr_results) ∧
          ((∀ page, page ∈ od_results ocr_results → analysed page →
              page_words page = [] ∨ Forall int_span (detections detect_pii page)) →
           total_entities (detect_pii_in_doc detect_pii (od_results ocr_results))
           = found_in detect_pii (od_results ocr_results))) as [Hbound Heq].
  { destruct (od_results ocr_results) as [|p ps] eqn:E; [done|].
    rewrite detect_pii_in_doc_fmap by done.
    pose proof (total_entities_found detect_pii (enumerate (p :: ps))) as H.
    by rewrite snd_enumerate in H. }
  split; [done|]. split; [done|].
  destruct (sensitivity_of_spec _ (proj1 Hbound)) as (? & ? & ?).
  split; [done|]. split; [done|]. split; [done|]. apply collect_types_spec.
Qed.

Lemma pii_document_sensitivity_witness :
  ∃ sensitivity entity_count entity_types,
    pii_process_document digits_detector
      {| od_status := Some "success"%string; od_results := scanned_pages |}
    = PiiSuccess 3 (detect_pii_in_doc digits_detector scanned_pages)
        sensitivity entity_count entity_types ∧
    entity_count = 1 ∧ sensitivity = "medium"%string.
Proof.
  destruct (pii_document_sensitivity digits_detector
              {| od_status := Some "success"%string; od_results := scanned_pages |})
    as [_ H].
  destruct (H eq_refl) as (s & c & t & Hr & _ & Hc & _ & Hm & _).
  exists s, c, t. split; [exact Hr|].
  assert (c = 1) as ->.
  { apply Hc. intros page Hp _. right.
    clear. unfold detections, digits_detector. destruct (bool_decide _); repeat constructor.
    exists 4, 15. split; reflexivity. }
  split; [reflexivity|]. apply Hm. lia.
Defined.

(** ** From the PII geometry to the image: the words of an entity are covered *)

(** The box that the mapping gives to an entity covers the box of every word
    referenced by its span. *)
Lemma map_entity_to_words_covers e m words a b e' i bx :
  has_span e a b → _map_entity_to_words e m words = Some e' →
  referenced m a b i → word_box words i = Some bx →
  e_entity e' = e_entity e ∧
  ∃ X Y W H, e_bbox e' = Some [X; Y; W; H] ∧ covers (X, Y, W, H) bx.
Proof.
  intros [Ha Hb] He' Hi Hbx.
  rewrite (map_entity_to_words_unfold e m words a b Ha Hb) in He'.
  destruct (sorted_word_indices m a b) as [_ Hmem].
  set (idxs := merge_sort le (elements (word_indices m a b))) in *.
  assert (i ∈ idxs) as Hin by (by apply Hmem).
  rewrite bool_decide_false in He'.
  2: { intros Hnil. apply word_indices_spec in Hi. rewrite Hnil in Hi.
       by apply not_elem_of_empty in Hi. }
  destruct (fold_any_word_boxes words idxs) as (_ & _ & _ & _ & Hsome).
  destruct Hsome as (X & Y & HX & HY & Hcov).
  { intros Hnil.
    assert (i ∈ filter (λ i, is_Some (word_box words i)) idxs) as Hf
      by (apply list_elem_of_filter; split; [by rewrite Hbx|done]).
    rewrite Hnil in Hf. by apply elem_of_nil in Hf. }
  simpl in He'. rewrite HX, HY in He'. injection He' as <-.
  split; [done|]. eexists X, Y, _, _. split; [done|]. by apply (Hcov i).
Qed.

(** X13: the geometry mapping and the image redaction together.  When an
    entity with integer offsets has gone through the mapping and the image
    redaction of its page has succeeded (it returned the path of a new
    file), every word referenced by the span of the entity whose box lies
    inside the image is under a rectangle filled on the new image, and that
    rectangle is recorded in the areas under the type of the entity. *)
Theorem mapped_entity_is_blacked_out
    (lib : imaging) (w w' : world) (name : string) (img : image)
    (e e' : entity) (m : gmap Z nat) (words : list word) (a b : Z)
    (es1 es2 : list entity) (color : string) (k : nat) (areas : list area) :
  has_span e a b → _map_entity_to_words e m words = Some e' →
  existing w !! name = Some img →
  redact_image lib w (Some name) (es1 ++ e' :: es2) color = ((Some (Created k), areas), w') →
  ∃ img',
    open_image w' (Created k) = Some img' ∧
    ∀ i x y wd ht,
      referenced m a b i → word_box words i = Some (x, y, wd, ht) →
      0 ≤ x → 0 ≤ y → x + wd ≤ img_width img → y + ht ≤ img_height img →
      ∃ X Y W H,
        {| a_entity_type := entity_type e; a_bbox := [X; Y; W; H] |} ∈ areas ∧
        ((X, Y, X + W, Y + H), color) ∈ img_fills img' ∧
        covers (X, Y, W, H) (x, y, wd, ht).
Proof.
  intros Hspan He' Himg Hred.
  destruct (redact_image_spec lib w (Some name) (es1 ++ e' :: es2) color) as [_ Hr].
  rewrite Hred in Hr. simpl in Hr. destruct Hr as [[= ?]|Hok].
  destruct Hok as (name' & img0 & img' & [= <-] & Himg0 & [= <-] & Hopen & _ & _ & Hfills & ->).
  rewrite Himg in Himg0. injection Himg0 as <-.
  exists img'. split; [done|].
  intros i x y wd ht Hi Hbx Hx Hy Hxw Hyh.
  destruct (map_entity_to_words_covers e m words a b e' i _ Hspan He' Hi Hbx)
    as (Hty & X & Y & W & H & Hbox & Hcov).
  assert ((e', (X, Y, W, H)) ∈ boxed_entities (es1 ++ e' :: es2)) as Hin.
  { unfold boxed_entities. apply list_elem_of_omap. exists e'.
    split; [apply elem_of_app; right; by left|]. by rewrite Hbox. }
  simpl in Hcov.
  exists (Z.max 0 (X - 5)), (Z.max 0 (Y - 5)),
    (Z.min (img_width img) (X + W + 5) - Z.max 0 (X - 5)),
    (Z.min (img_height img) (Y + H + 5) - Z.max 0 (Y - 5)).
  split; [|split].
  - apply list_elem_of_fmap. exists (e', (X, Y, W, H)). split; [|done].
    unfold area_for, entity_type. simpl. by rewrite Hty.
  - rewrite Hfills. apply elem_of_app. right.
    apply list_elem_of_fmap. exists (e', (X, Y, W, H)). split; [|done].
    unfold fill_for, padded. simpl.
    replace (Z.max 0 (X - 5) + (Z.min (img_width img) (X + W + 5) - Z.max 0 (X - 5)))
      with (Z.min (img_width img) (X + W + 5)) by lia.
    by replace (Z.max 0 (Y - 5) + (Z.min (img_height img) (Y + H + 5) - Z.max 0 (Y - 5)))
      with (Z.min (img_height img) (Y + H + 5)) by lia.
  - simpl. lia.
Qed.

Lemma mapped_entity_is_blacked_out_witness :
  ∃ img',
    open_image
      (redact_image strict_imaging three_files (Some "page1.jpg"%string)
         [set_geometry greeting_entity [10; 20; 50; 12] [lit "Hello"]] "black").2
      (Created 0) = Some img' ∧
    ∀ i x y wd ht,
      referenced (_create_char_to_word_map (lit "Hello World") hello_world) 1 6 i →
      word_box hello_world i = Some (x, y, wd, ht) →
      0 ≤ x → 0 ≤ y → x + wd ≤ 800 → y + ht ≤ 600 →
      ∃ X Y W H,
        {| a_entity_type := "GREETING"; a_bbox := [X; Y; W; H] |}
          ∈ [ {| a_entity_type := "GREETING"; a_bbox := [5; 15; 60; 22] |} ] ∧
        ((X, Y, X + W, Y + H), "black"%string) ∈ img_fills img' ∧
        covers (X, Y, W, H) (x, y, wd, ht).
Proof.
  exact (mapped_entity_is_blacked_out strict_imaging three_files _ "page1.jpg" blank_page
           greeting_entity _ (_create_char_to_word_map (lit "Hello World") hello_world)
           hello_world 1 6 [] [] "black" 0 _
           (conj eq_refl eq_refl) eq_refl eq_refl eq_refl).
Defined.
